(** * Smart IoT buoy simulator: the model of [src/iot_buoy_page.py]

    The page generates one synthetic sensor reading per buoy and per
    tick, scores it with a threshold heuristic, appends it to a log kept
    in the Streamlit session state, and renders metrics, a health score
    and a JSON cloud payload from that log.

    Python's [float] is IEEE-754 binary64; it is modelled by Rocq's
    primitive [float], whose operations are specified by
    [Stdlib.Floats] against the executable reference [SpecFloat]. Float
    literals below denote, as in Python, the nearest binary64 value.

    What the page takes from outside is an explicit input of the model:
    the results of [random.uniform], the clock read by
    [pd.Timestamp.now()], the sliders and buttons, and a clearing of
    the running flag while the loop runs. The session state is passed
    through the script; what the page displays is collected in order
    as a list of events. *)

From Stdlib Require Import String Ascii DecimalString DecimalNat.
From Stdlib Require Import ZArith List Bool Lia Floats.
From Stdlib Require Import Sorting.Sorted Sorting.Permutation.
Import ListNotations.
Set Warnings "-inexact-float".
Open Scope Z_scope.

(* ================================================================= *)
(** ** Exact values of binary64 numbers *)

Module Binary64.

(** The value of a finite number times [2^1074]: every finite binary64
    number is an integer multiple of [2^-1074], so this is exact. *)
Definition scaled (x : spec_float) : Z :=
  match x with
  | S754_finite s m e => cond_Zopp s (Zpos m * 2 ^ (e + 1074))
  | _ => 0
  end.

Definition finite_sf (x : spec_float) : bool :=
  match x with
  | S754_finite _ _ _ | S754_zero _ => true
  | _ => false
  end.

Definition value (x : float) : Z := scaled (Prim2SF x).
Definition finite (x : float) : bool := finite_sf (Prim2SF x).

(** [R] is a rounding of [V] to a canonical float: no canonical float
    lies strictly between them. *)
Definition brackets (V R : Z) : Prop :=
  (forall ma ea, canonical_mantissa prec emax ma ea = true ->
     Zpos ma * 2 ^ (ea + 1074) <= V -> Zpos ma * 2 ^ (ea + 1074) <= R) /\
  (forall mb eb, canonical_mantissa prec emax mb eb = true ->
     V <= Zpos mb * 2 ^ (eb + 1074) -> R <= Zpos mb * 2 ^ (eb + 1074)).

End Binary64.

(* ================================================================= *)
(** ** The Python builtins the page uses on floats *)

Module Py.

(** [min(a, b)]: the first argument unless the second is smaller. *)
Definition min (a b : float) : float := if (b <? a)%float then b else a.

(** Quotient of [n] by [d > 0] rounded to the nearest integer, ties
    to even. *)
Definition half_even_div (n d : Z) : Z :=
  let q := n / d in
  let r := n mod d in
  match 2 * r ?= d with
  | Lt => q
  | Gt => q + 1
  | Eq => if Z.even q then q else q + 1
  end.

(** [m * 2^e * 10^ndigits] rounded to an integer, ties to even. *)
Definition decimal_units (m : positive) (e : Z) (ndigits : nat) : Z :=
  let scale := 10 ^ Z.of_nat ndigits in
  if 0 <=? e then Zpos m * scale * 2 ^ e
  else half_even_div (Zpos m * scale) (2 ^ (- e)).

(** The double nearest to [k / d], with sign [s]: [SF64div] rounds the
    exact quotient of the two integer mantissas once, to nearest,
    ties to even. *)
Definition nearest_ratio (s : bool) (k d : positive) : float :=
  SF2Prim (SF64div (S754_finite s k 0) (S754_finite false d 0)).

Definition pow10 (ndigits : nat) : positive := Z.to_pos (10 ^ Z.of_nat ndigits).

(** [round(x, ndigits)] for a float [x] and [ndigits >= 0]. CPython
    converts [x] to the correctly rounded decimal with [ndigits]
    digits after the point (ties to even on the exact binary value)
    and reads that decimal back as the nearest double; zeros,
    infinities and NaN round to themselves. *)
Definition round (x : float) (ndigits : nat) : float :=
  match Prim2SF x with
  | S754_finite s m e =>
      match decimal_units m e ndigits with
      | Zpos k => nearest_ratio s k (pow10 ndigits)
      | _ => if s then (-0)%float else 0%float
      end
  | _ => x
  end.

(** A count, held as a 64-bit integer, converted to a float (exact
    below [2^53]). *)
Definition float_of_nat (n : nat) : float :=
  of_uint63 (Uint63.of_Z (Z.of_nat n)).

(** [str(n)] for a non-negative integer. *)
Definition str (n : nat) : string := NilZero.string_of_uint (Nat.to_uint n).

End Py.

(* ================================================================= *)
(** ** The reading generator (lines 47-77) *)

(** The seven results of [random.uniform] that one call of
    [generate_buoy_reading] consumes, in source order. *)
Record Draws := {
  u_lat : float;      (* random.uniform(-2, 2), line 51 *)
  u_lon : float;      (* random.uniform(-2, 2), line 52 *)
  u_temp : float;     (* random.uniform(5, 18) *)
  u_depth : float;    (* random.uniform(50, 300) *)
  u_sound : float;    (* random.uniform(20, 120) *)
  u_wave : float;     (* random.uniform(0.5, 3.5) *)
  u_jitter : float    (* random.uniform(0, 0.2), line 65 *)
}.

(** [a <= x <= b] on floats. *)
Definition between (a b x : float) : bool :=
  ((a <=? x) && (x <=? b))%float.

(** [random.uniform(a, b)] returns [N] with [a <= N <= b]: what is
    assumed of the draws, here of the jitter alone and below of all
    seven. *)
Definition jitter_in_range (d : Draws) : bool :=
  between 0 0.2 (u_jitter d).

Definition draws_in_range (d : Draws) : bool :=
  between (-2) 2 (u_lat d) && between (-2) 2 (u_lon d) &&
  between 5 18 (u_temp d) && between 50 300 (u_depth d) &&
  between 20 120 (u_sound d) && between 0.5 3.5 (u_wave d) &&
  jitter_in_range d.

(** One row of the telemetry log: the dict built at lines 67-77. *)
Record Reading := {
  time : Z;            (* pd.Timestamp.now(), in clock units *)
  buoy : string;
  lat : float;
  lon : float;
  temp : float;
  depth : float;
  sound : float;
  wave : float;
  whale_prob : float
}.

Section Generator.
Local Open Scope float_scope.

Definition base_lat : float := 34.0.
Definition base_lon : float := -120.0.

(** Lines 59-63: the four threshold rules, accumulated in order. *)
Definition rule_sum (d : Draws) : float :=
  let whale_prob := 0 in
  let whale_prob := if 85 <? u_sound d then whale_prob + 0.4 else whale_prob in
  let whale_prob :=
    if (8 <? u_temp d) && (u_temp d <? 16) then whale_prob + 0.3 else whale_prob in
  let whale_prob := if 80 <? u_depth d then whale_prob + 0.2 else whale_prob in
  let whale_prob := if u_wave d <? 2 then whale_prob + 0.1 else whale_prob in
  whale_prob.

(** Line 65: jitter added, then clamped from above. *)
Definition clamped_prob (d : Draws) : float :=
  Py.min 1.0 (rule_sum d + u_jitter d).

Definition generate_buoy_reading (buoy_id : nat) (now : Z) (d : Draws) : Reading :=
  let lat := base_lat + u_lat d in
  let lon := base_lon + u_lon d in
  let temp := u_temp d in
  let depth := u_depth d in
  let sound := u_sound d in
  let wave := u_wave d in
  let whale_prob := clamped_prob d in
  {| time := now;
     buoy := String.append "B-" (Py.str buoy_id);
     lat := lat;
     lon := lon;
     temp := Py.round temp 2;
     depth := Py.round depth 1;
     sound := Py.round sound 1;
     wave := Py.round wave 2;
     whale_prob := Py.round whale_prob 2 |}.

(** A value is rounded to [n] decimals when rounding leaves it fixed. *)
Definition is_rounded (n : nat) (v : float) : Prop := Py.round v n = v.

End Generator.

(* ================================================================= *)
(** ** Data frames and the derived views (lines 98-158) *)

Definition DataFrame := list Reading.

(** [df.sort_values("time")]: rows in non-decreasing time order. The
    model keeps rows of equal time in their original order. The default
    sort of pandas is not stable and may order them otherwise, so the
    theorems on the sorted frame either hold for every time order of
    the frame or assume timestamps that leave no tie. *)
Fixpoint insert_by_time (r : Reading) (df : DataFrame) : DataFrame :=
  match df with
  | [] => [r]
  | x :: rest =>
      if time r <=? time x then r :: x :: rest
      else x :: insert_by_time r rest
  end.

Fixpoint sort_values (df : DataFrame) : DataFrame :=
  match df with
  | [] => []
  | r :: rest => insert_by_time r (sort_values rest)
  end.

(** [.groupby("buoy").tail(1)]: the last row of every group, in row
    order. *)
Fixpoint groupby_tail1 (df : DataFrame) : DataFrame :=
  match df with
  | [] => []
  | r :: rest =>
      if existsb (fun r' => String.eqb (buoy r') (buoy r)) rest
      then groupby_tail1 rest
      else r :: groupby_tail1 rest
  end.

(** Lines 110 and 144. *)
Definition latest_per_buoy (df : DataFrame) : DataFrame :=
  groupby_tail1 (sort_values df).

(** The last row of a frame, if it has one. *)
Definition last_row (df : DataFrame) : option Reading :=
  match df with
  | [] => None
  | r :: rest => Some (last rest r)
  end.

(** [df.tail(n)]. *)
Definition tail_rows (n : nat) (df : DataFrame) : DataFrame :=
  skipn (length df - n) df.

(** [df["buoy"].nunique()]. *)
Definition nunique (df : DataFrame) : nat :=
  length (nodup string_dec (map buoy df)).

Section Scorer.
Local Open Scope float_scope.

(** Lines 146-150 on one row. *)
Definition is_anomalous (sound temp wave : float) : bool :=
  (100 <? sound) || (temp <? 6) || (3 <? wave).

Definition anomaly (r : Reading) : bool :=
  is_anomalous (sound r) (temp r) (wave r).

(** The boolean column [anomaly_flags], row by row. *)
Definition anomaly_flags (latest : DataFrame) : list bool :=
  map anomaly latest.

(** [flags.mean()]: the count of [True] over the number of rows. *)
Definition series_mean (flags : list bool) : float :=
  Py.float_of_nat (count_occ bool_dec flags true) /
  Py.float_of_nat (length flags).

(** Line 155. *)
Definition health_score (latest : DataFrame) : float :=
  100 - series_mean (anomaly_flags latest) * 100.

(** [df["whale_prob"] > 0.7]. *)
Definition is_alert (r : Reading) : bool := 0.7 <? whale_prob r.

End Scorer.

(** The JSON object of lines 174-191. *)
Record CloudMsg := {
  device_id : string;
  timestamp : Z;
  location_lat : float;
  location_lon : float;
  sensors_temp : float;
  sensors_depth : float;
  sensors_sound : float;
  sensors_wave : float;
  ai_whale_probability : float;
  ai_alert : bool
}.

Definition cloud_msg (latest_row : Reading) : CloudMsg :=
  {| device_id := buoy latest_row;
     timestamp := time latest_row;
     location_lat := lat latest_row;
     location_lon := lon latest_row;
     sensors_temp := temp latest_row;
     sensors_depth := depth latest_row;
     sensors_sound := sound latest_row;
     sensors_wave := wave latest_row;
     ai_whale_probability := whale_prob latest_row;
     ai_alert := is_alert latest_row |}.

Definition topic (latest_row : Reading) : string :=
  String.append "ocean/buoys/" (String.append (buoy latest_row) "/telemetry").

(* ================================================================= *)
(** ** The page as a script over the session state *)

(** What [st.session_state] holds between script runs: a key is absent
    until lines 22-26 create it. *)
Record StoredSession := {
  stored_buoy_data : option (list Reading);
  stored_running : option bool
}.

(** The session state once both keys exist. *)
Record SessionState := {
  buoy_data : list Reading;
  running : bool
}.

(** The sidebar sliders and the two buttons (lines 33-42). *)
Record Controls := {
  update_speed : nat;
  num_buoys : nat;
  start_pressed : bool;
  stop_pressed : bool
}.

(** The sliders range over 1..5. *)
Definition sliders_in_range (c : Controls) : bool :=
  ((1 <=? update_speed c) && (update_speed c <=? 5) &&
   (1 <=? num_buoys c) && (num_buoys c <=? 5))%nat.

(** Everything the script takes from outside: the clock and the random
    draws of the reading built for buoy index [i] of iteration [step],
    and whether the running flag is cleared from outside while
    iteration [step] is in progress. *)
Record World := {
  now : nat -> nat -> Z;
  draws : nat -> nat -> Draws;
  stop_request : nat -> bool
}.

(** What the page puts on screen or does, in order. Static titles and
    captions are left out. *)
Inductive Event :=
| Metric (label : string) (n : nat)
| MapChart (step : nat) (latest : DataFrame)
| SoundTrend (step : nat) (rows : DataFrame)
| Table (rows : DataFrame)
| AnomalyTable (rows : DataFrame)
| HealthMetric (score : float)
| AlertTimeline (step : nat) (rows : DataFrame)
| CloudPayload (msg : CloudMsg)
| MqttTopic (t : string)
| PayloadDownload (step : nat) (msg : CloudMsg)
| CsvDownload (step : nat) (rows : DataFrame)
| Sleep (seconds : nat)
| FlagCheck (flag : bool)
| Warning.

Inductive PyError := KeyError | IndexError.

Inductive Outcome (A : Type) :=
| Returned (a : A)
| Raised (e : PyError).
Arguments Returned {A} a.
Arguments Raised {A} e.

(** A script step: it may change the session state, appends to the
    output, and returns or raises. *)
Definition Script (A : Type) : Type :=
  SessionState -> Outcome A * SessionState * list Event.

Definition ret {A} (a : A) : Script A := fun s => (Returned a, s, []).

Definition bind {A B} (m : Script A) (f : A -> Script B) : Script B :=
  fun s =>
    match m s with
    | (Returned a, s1, out1) =>
        let '(r, s2, out2) := f a s1 in (r, s2, out1 ++ out2)
    | (Raised e, s1, out1) => (Raised e, s1, out1)
    end.

Declare Scope script_scope.
Delimit Scope script_scope with script.
Notation "x <- m ;; k" := (bind m (fun x => k))
  (at level 61, m at next level, right associativity) : script_scope.
Notation "m ;; k" := (bind m (fun _ => k))
  (at level 61, right associativity) : script_scope.

Section ScriptSteps.
Local Open Scope script_scope.

Definition raise {A} (e : PyError) : Script A := fun s => (Raised e, s, []).
Definition show (ev : Event) : Script unit := fun s => (Returned tt, s, [ev]).
Definition get_buoy_data : Script (list Reading) :=
  fun s => (Returned (buoy_data s), s, []).
Definition get_running : Script bool :=
  fun s => (Returned (running s), s, [FlagCheck (running s)]).
(** [st.session_state.buoy_data.extend(rows)]. *)
Definition extend (rows : list Reading) : Script unit :=
  fun s => (Returned tt, {| buoy_data := buoy_data s ++ rows; running := running s |}, []).
(** The flag is cleared from outside. *)
Definition clear_running : Script unit :=
  fun s => (Returned tt, {| buoy_data := buoy_data s; running := false |}, []).

(** [df[name]] on the frame built from a list of dicts: a frame built
    from an empty list has no columns. *)
Definition column {A} (df : DataFrame) (field : Reading -> A) : Script (list A) :=
  match df with
  | [] => raise KeyError
  | _ => ret (map field df)
  end.

(** [latest.iloc[-1]]. *)
Definition iloc_last (df : DataFrame) : Script Reading :=
  match last_row df with
  | None => raise IndexError
  | Some r => ret r
  end.

(** Line 95. *)
Definition new_rows (w : World) (num_buoys step : nat) : list Reading :=
  map (fun i => generate_buoy_reading (i + 1) (now w step i) (draws w step i))
      (seq 0 num_buoys).

(** One pass through the body of the live loop (lines 95-216); the
    result tells whether the loop goes on. A stop request that arrives
    at any moment of the iteration is taken at its start: the body
    reads the flag at line 215 only. *)
Definition iteration (w : World) (c : Controls) (step : nat) : Script bool :=
  (if stop_request w step then clear_running else ret tt) ;;
  extend (new_rows w (num_buoys c) step) ;;
  df <- get_buoy_data ;;
  show (Metric "Total Signals" (length df)) ;;
  buoys <- column df buoy ;;
  show (Metric "Active Buoys" (nunique df)) ;;
  show (Metric "Whale Alerts" (length (filter is_alert df))) ;;
  let latest := latest_per_buoy df in
  show (MapChart step latest) ;;
  show (SoundTrend step (tail_rows 100 df)) ;;
  show (Table (tail_rows 10 df)) ;;
  let latest := latest_per_buoy df in
  show (AnomalyTable (filter anomaly latest)) ;;
  show (HealthMetric (health_score latest)) ;;
  let alerts := filter is_alert df in
  (match alerts with
   | [] => ret tt
   | _ => show (AlertTimeline step (tail_rows 50 alerts))
   end) ;;
  latest_row <- iloc_last latest ;;
  show (CloudPayload (cloud_msg latest_row)) ;;
  show (MqttTopic (topic latest_row)) ;;
  show (PayloadDownload step (cloud_msg latest_row)) ;;
  show (CsvDownload step df) ;;
  show (Sleep (update_speed c)) ;;
  get_running.

(** [for step in steps: ...; if not running: break]. *)
Fixpoint live_loop (w : World) (c : Controls) (steps : list nat) : Script unit :=
  match steps with
  | [] => ret tt
  | step :: rest =>
      go_on <- iteration w c step ;;
      if go_on then live_loop w c rest else ret tt
  end.

End ScriptSteps.

(** Lines 22-26. *)
Definition session_init (stored : StoredSession) : SessionState :=
  {| buoy_data := match stored_buoy_data stored with
                  | Some log => log
                  | None => []
                  end;
     running := match stored_running stored with
                | Some flag => flag
                | None => false
                end |}.

(** Lines 38-42. *)
Definition press_buttons (c : Controls) (s : SessionState) : SessionState :=
  let s := if start_pressed c
           then {| buoy_data := buoy_data s; running := true |} else s in
  if stop_pressed c
  then {| buoy_data := buoy_data s; running := false |} else s.

Definition prelude (c : Controls) (stored : StoredSession) : SessionState :=
  press_buttons c (session_init stored).

(** One run of the page, from the stored session state. *)
Definition run_iot_buoy (w : World) (c : Controls) (stored : StoredSession)
  : Outcome unit * SessionState * list Event :=
  let s := prelude c stored in
  if running s then live_loop w c (seq 0 50) s
  else (Returned tt, s, [Warning]).

(** The session state as the next run finds it. *)
Definition store (s : SessionState) : StoredSession :=
  {| stored_buoy_data := Some (buoy_data s); stored_running := Some (running s) |}.

(** *** Views of a run used to state its properties *)

(** The readings generated by the iterations [steps], in order. *)
Definition rows_of (w : World) (B : nat) (steps : list nat) : list Reading :=
  concat (map (new_rows w B) steps).

(** The log after [T] ticks of [B] buoys on top of [log0]. *)
Definition log_after (w : World) (B : nat) (log0 : list Reading) (T : nat)
  : list Reading :=
  log0 ++ rows_of w B (seq 0 T).

(** How many iterations a loop over [steps] starts, if none raises. *)
Fixpoint executed (w : World) (steps : list nat) : nat :=
  match steps with
  | [] => 0
  | step :: rest => S (if stop_request w step then 0 else executed w rest)
  end.

Definition payloads (out : list Event) : list CloudMsg :=
  flat_map (fun ev => match ev with CloudPayload m => [m] | _ => [] end) out.

Definition csv_snapshots (out : list Event) : list DataFrame :=
  flat_map (fun ev => match ev with CsvDownload _ rows => [rows] | _ => [] end) out.

(** What one pass through the loop body puts out on a frame [df] whose
    latest view ends with [latest_row], when the flag reads [flag]. *)
Definition iteration_output (c : Controls) (step : nat) (df : DataFrame)
  (latest_row : Reading) (flag : bool) : list Event :=
  [Metric "Total Signals" (length df);
   Metric "Active Buoys" (nunique df);
   Metric "Whale Alerts" (length (filter is_alert df));
   MapChart step (latest_per_buoy df);
   SoundTrend step (tail_rows 100 df);
   Table (tail_rows 10 df);
   AnomalyTable (filter anomaly (latest_per_buoy df));
   HealthMetric (health_score (latest_per_buoy df))]
  ++ match filter is_alert df with
     | [] => []
     | alerts => [AlertTimeline step (tail_rows 50 alerts)]
     end
  ++ [CloudPayload (cloud_msg latest_row);
      MqttTopic (topic latest_row);
      PayloadDownload step (cloud_msg latest_row);
      CsvDownload step df;
      Sleep (update_speed c);
      FlagCheck flag].

(** The output of one complete pass through the loop body: everything
    up to the payload, the two downloads and the sleep, and only then
    the flag. *)
Definition complete_iteration (out : list Event) : bool :=
  match out with
  | Metric _ _ :: Metric _ _ :: Metric _ _ :: MapChart _ _ :: SoundTrend _ _
    :: Table _ :: AnomalyTable _ :: HealthMetric _ :: rest =>
      match rest with
      | [CloudPayload _; MqttTopic _; PayloadDownload _ _; CsvDownload _ _;
         Sleep _; FlagCheck _]
      | [AlertTimeline _ _; CloudPayload _; MqttTopic _; PayloadDownload _ _;
         CsvDownload _ _; Sleep _; FlagCheck _] => true
      | _ => false
      end
  | _ => false
  end.

(** *** Checking the decimal grid by enumeration *)

(** The positives [lo, lo+1, ..., hi]. *)
Definition pos_range (lo hi : nat) : list positive :=
  map Pos.of_nat (seq lo (S hi - lo)).

(** Every double nearest to [k / 10^nd], [lo <= k <= hi], lies in
    [[a, b]] and is left fixed by rounding to [nd] decimals. *)
Definition grid_ok (nd : nat) (a b : float) (lo hi : nat) : bool :=
  forallb (fun k =>
             let v := Py.nearest_ratio false k (Py.pow10 nd) in
             (a <=? v)%float && (v <=? b)%float &&
             PrimFloat.Leibniz.eqb (Py.round v nd) v)
          (pos_range lo hi).

(** Rows in non-decreasing time order. *)
Definition time_le (a b : Reading) : Prop := time a <= time b.

(** *** Sample inputs *)

Section Samples.
Local Open Scope float_scope.

(** The scenario of the four firing rules, with its jitter left open. *)
Definition all_rules_draws (jitter : float) : Draws :=
  {| u_lat := 0; u_lon := 0; u_temp := 10; u_depth := 100;
     u_sound := 90; u_wave := 1; u_jitter := jitter |}.

(** Draws whose coordinates and sound level have more decimals than
    any rounding would keep. *)
Definition fine_draws : Draws :=
  {| u_lat := 0.125; u_lon := -1.0625; u_temp := 5.5; u_depth := 60;
     u_sound := 30.14; u_wave := 3.2; u_jitter := 0.1 |}.

Definition sample_world : World :=
  {| now := fun step i => Z.of_nat (10 * step + i);
     draws := fun step i => if Nat.even i then all_rules_draws 0 else fine_draws;
     stop_request := fun step => Nat.eqb step 1 |}.

Definition sample_controls : Controls :=
  {| update_speed := 2; num_buoys := 3; start_pressed := true; stop_pressed := false |}.

Definition fresh_session : StoredSession :=
  {| stored_buoy_data := None; stored_running := None |}.

End Samples.

(** *** The health metric of a pass, and clocks that do not advance *)

Definition health_metrics (out : list Event) : list float :=
  flat_map (fun ev => match ev with HealthMetric h => [h] | _ => [] end) out.

(** No buoy has two different rows with the same timestamp. *)
Definition no_buoy_ties (df : DataFrame) : Prop :=
  forall r1 r2, In r1 df -> In r2 df ->
                buoy r1 = buoy r2 -> time r1 = time r2 -> r1 = r2.

(** A world whose clock steps back by one unit from each reading of a
    pass to the next. *)
Definition receding_clock_world : World :=
  {| now := fun step i => Z.of_nat (10 * step + 9) - Z.of_nat i;
     draws := fun step i => if Nat.even i then all_rules_draws 0 else fine_draws;
     stop_request := fun step => false |}.

(** One buoy read twice: the older reading is anomalous (temperature
    5.5), the newer one is not. *)
Definition recovered_buoy_log : DataFrame :=
  [generate_buoy_reading 1 0 fine_draws;
   generate_buoy_reading 1 1 (all_rules_draws 0)].

(** *** Further views of the output and of the log *)

(** Rows in strictly increasing time order: a clock that advances
    between any two readings. *)
Definition time_lt (a b : Reading) : Prop := time a < time b.

(** The label of buoy [i], as line 69 builds it. *)
Definition label_of_buoy (i : nat) : string := String.append "B-" (Py.str i).

(** Every row carries the label of one of the buoys [1..n]. *)
Definition labels_within (n : nat) (df : DataFrame) : Prop :=
  Forall (fun r => In (buoy r) (map label_of_buoy (seq 1 n))) df.

(** Whether a row of [rows] belongs to the buoy of [v]. *)
Definition has_reading_of (v : Reading) (rows : DataFrame) : bool :=
  existsb (fun r => String.eqb (buoy r) (buoy v)) rows.

Definition metrics (out : list Event) : list (string * nat) :=
  flat_map (fun ev => match ev with Metric label n => [(label, n)] | _ => [] end) out.

Definition alert_timelines (out : list Event) : list DataFrame :=
  flat_map (fun ev => match ev with AlertTimeline _ rows => [rows] | _ => [] end) out.

(** Line 155 on [N] latest rows of which [K] are flagged. *)
Definition health_of_counts (K N : nat) : float :=
  (100 - (Py.float_of_nat K / Py.float_of_nat N) * 100)%float.

(** For up to [n] buoys: the health lies in [[0, 100]], is 100 exactly
    when no row is flagged and 0 exactly when all are. *)
Definition health_table_ok (n : nat) : bool :=
  forallb (fun N =>
    forallb (fun K =>
      let h := health_of_counts K N in
      between 0 100 h &&
      Bool.eqb (PrimFloat.Leibniz.eqb h 100) (K =? 0)%nat &&
      Bool.eqb (PrimFloat.Leibniz.eqb h 0) (K =? N)%nat)
      (seq 0 (S N)))
    (seq 1 n).

(** A rerun of the page with no button pressed. *)
Definition no_button (c : Controls) : Controls :=
  {| update_speed := update_speed c; num_buoys := num_buoys c;
     start_pressed := false; stop_pressed := false |}.

(** A world whose clock advances by one unit per reading. *)
Definition ticking_world : World :=
  {| now := fun step i => Z.of_nat (10 * step + i);
     draws := fun step i => if Nat.even i then all_rules_draws 0 else fine_draws;
     stop_request := fun step => false |}.

Definition tables (out : list Event) : list DataFrame :=
  flat_map (fun ev => match ev with Table rows => [rows] | _ => [] end) out.

Definition sound_trends (out : list Event) : list DataFrame :=
  flat_map (fun ev => match ev with SoundTrend _ rows => [rows] | _ => [] end) out.

Definition topics (out : list Event) : list string :=
  flat_map (fun ev => match ev with MqttTopic t => [t] | _ => [] end) out.

Definition payload_downloads (out : list Event) : list CloudMsg :=
  flat_map (fun ev => match ev with PayloadDownload _ m => [m] | _ => [] end) out.

(** The log as lines 22-23 find or create it. *)
Definition stored_log (stored : StoredSession) : list Reading :=
  match stored_buoy_data stored with
  | Some log => log
  | None => []
  end.

(* ================================================================= *)
(** * Properties *)

Import Binary64.

(** ** Binary64 rounding, from the reference implementation

    The lemmas of this part establish, for the executable reference
    [SpecFloat] that specifies the primitive floats, that comparison
    agrees with the order of exact values and that the result of an
    addition is never separated from the exact sum by a representable
    number. *)

Lemma digits2_pos_bounds (m : positive) :
  2 ^ (Zpos (digits2_pos m) - 1) <= Zpos m < 2 ^ Zpos (digits2_pos m).
Proof.
  induction m as [m IH | m IH | ]; cbn [digits2_pos].
  - rewrite Pos2Z.inj_succ.
    replace (Z.succ (Zpos (digits2_pos m)) - 1) with (Z.succ (Zpos (digits2_pos m) - 1)) by lia.
    rewrite !Z.pow_succ_r by lia. lia.
  - rewrite Pos2Z.inj_succ.
    replace (Z.succ (Zpos (digits2_pos m)) - 1) with (Z.succ (Zpos (digits2_pos m) - 1)) by lia.
    rewrite !Z.pow_succ_r by lia. lia.
  - cbn. lia.
Qed.

Lemma digits2_pos_unique (m : positive) (k : Z) :
  2 ^ (k - 1) <= Zpos m < 2 ^ k -> Zpos (digits2_pos m) = k.
Proof.
  intros [Hlo Hhi].
  pose proof (digits2_pos_bounds m) as [Dlo Dhi].
  assert (0 < k).
  { destruct (Z.ltb_spec 0 k) as [|Hk]; auto. exfalso.
    destruct (Z.eq_dec k 0) as [-> | Hn]; [cbn in Hhi; lia|].
    rewrite Z.pow_neg_r in Hhi by lia. lia. }
  destruct (Z.lt_trichotomy (Zpos (digits2_pos m)) k) as [L | [E | G]]; auto; exfalso.
  - assert (2 ^ Zpos (digits2_pos m) <= 2 ^ (k - 1)) by (apply Z.pow_le_mono_r; lia). lia.
  - assert (2 ^ k <= 2 ^ (Zpos (digits2_pos m) - 1)) by (apply Z.pow_le_mono_r; lia). lia.
Qed.

Lemma canonical_inv (m : positive) (e : Z) :
  canonical_mantissa prec emax m e = true ->
  -1074 <= e /\ Zpos m < 2 ^ 53 /\ (e = -1074 \/ 2 ^ 52 <= Zpos m).
Proof.
  unfold canonical_mantissa, fexp, SpecFloat.emin, prec, emax.
  intros Hc. apply Z.eqb_eq in Hc.
  pose proof (digits2_pos_bounds m) as [Dlo Dhi].
  set (d := Zpos (digits2_pos m)) in *.
  assert (Hd : 0 < d) by (unfold d; lia).
  destruct (Z.max_spec (d + e - 53) (3 - 1024 - 53)) as [[Hlt Hm] | [Hge Hm]];
    rewrite Hm in Hc.
  - assert (d <= 53) by lia.
    assert (2 ^ d <= 2 ^ 53) by (apply Z.pow_le_mono_r; lia).
    repeat split; try lia.
  - assert (d = 53) by lia.
    replace (d - 1) with 52 in Dlo by lia. replace d with 53 in Dhi by lia.
    repeat split; try lia.
Qed.

Lemma bounded_canonical (m : positive) (e : Z) :
  bounded prec emax m e = true -> canonical_mantissa prec emax m e = true.
Proof. unfold bounded. intros H. apply andb_true_iff in H. tauto. Qed.

Lemma bounded_inv (m : positive) (e : Z) :
  bounded prec emax m e = true ->
  -1074 <= e <= 971 /\ Zpos m < 2 ^ 53 /\ (e = -1074 \/ 2 ^ 52 <= Zpos m).
Proof.
  intros H. pose proof (canonical_inv _ _ (bounded_canonical _ _ H)) as (A & B & C).
  unfold bounded in H. apply andb_true_iff in H as [_ He]. apply Z.leb_le in He.
  unfold emax, prec in He. lia.
Qed.

Lemma pow2_split (a b : Z) : 0 <= a <= b -> 2 ^ b = 2 ^ a * 2 ^ (b - a).
Proof. intros H. rewrite <- Z.pow_add_r by lia. f_equal. lia. Qed.

Lemma pow2_pos (a : Z) : 0 <= a -> 0 < 2 ^ a.
Proof. intros. apply Z.pow_pos_nonneg; lia. Qed.

Lemma pow2_ge2 (a : Z) : 1 <= a -> 2 <= 2 ^ a.
Proof.
  intros. replace 2 with (2 ^ 1) at 1 by reflexivity.
  apply Z.pow_le_mono_r; lia.
Qed.

Lemma lt_by_exponent (m1 m2 : positive) (e1 e2 : Z) :
  canonical_mantissa prec emax m1 e1 = true ->
  canonical_mantissa prec emax m2 e2 = true ->
  e1 < e2 ->
  Zpos m1 * 2 ^ (e1 + 1074) < Zpos m2 * 2 ^ (e2 + 1074).
Proof.
  intros B1 B2 Hlt.
  apply canonical_inv in B1 as (R1 & U1 & _).
  apply canonical_inv in B2 as (R2 & _ & [E2 | L2]); [lia|].
  rewrite (pow2_split (e1 + 1074) (e2 + 1074)) by lia.
  pose proof (pow2_pos (e1 + 1074) ltac:(lia)).
  pose proof (pow2_ge2 (e2 + 1074 - (e1 + 1074)) ltac:(lia)).
  set (P := 2 ^ (e1 + 1074)) in *.
  set (Q := 2 ^ (e2 + 1074 - (e1 + 1074))) in *.
  change (2 ^ 53) with (2 ^ 52 * 2) in U1.
  assert (H1 : Zpos m1 * P < 2 ^ 52 * 2 * P) by (apply Z.mul_lt_mono_pos_r; lia).
  assert (H2 : P * 2 <= P * Q) by (apply Z.mul_le_mono_nonneg_l; lia).
  assert (H3 : 2 ^ 52 * (P * Q) <= Zpos m2 * (P * Q)) by (apply Z.mul_le_mono_nonneg_r; lia).
  assert (H4 : 2 ^ 52 * (P * 2) <= 2 ^ 52 * (P * Q)) by (apply Z.mul_le_mono_nonneg_l; lia).
  lia.
Qed.

Lemma mul_compare_pos_r (a b p : Z) : 0 < p -> (a * p ?= b * p) = (a ?= b).
Proof.
  intros Hp. destruct (Z.compare_spec a b) as [E | L | G].
  - subst. apply Z.compare_refl.
  - apply Z.compare_lt_iff. apply Z.mul_lt_mono_pos_r; assumption.
  - apply Z.compare_gt_iff. apply Z.mul_lt_mono_pos_r; assumption.
Qed.

Lemma SFcompare_scaled (x y : spec_float) :
  valid_binary x = true -> valid_binary y = true ->
  finite_sf x = true -> finite_sf y = true ->
  SFcompare x y = Some (scaled x ?= scaled y).
Proof.
  intros Vx Vy Fx Fy.
  destruct x as [sx | sx | | sx mx ex]; try discriminate;
  destruct y as [sy | sy | | sy my ey]; try discriminate; cbn [SFcompare scaled valid_binary] in *.
  - reflexivity.
  - pose proof (bounded_inv _ _ Vy) as (R & _ & _).
    pose proof (pow2_pos (ey + 1074) ltac:(lia)).
    destruct sy; cbn [cond_Zopp]; f_equal; symmetry.
    + apply Z.compare_gt_iff. lia.
    + apply Z.compare_lt_iff. lia.
  - pose proof (bounded_inv _ _ Vx) as (R & _ & _).
    pose proof (pow2_pos (ex + 1074) ltac:(lia)).
    destruct sx; cbn [cond_Zopp]; f_equal; symmetry.
    + apply Z.compare_lt_iff. lia.
    + apply Z.compare_gt_iff. lia.
  - pose proof (bounded_inv _ _ Vx) as (Rx & _ & _).
    pose proof (bounded_inv _ _ Vy) as (Ry & _ & _).
    pose proof (pow2_pos (ex + 1074) ltac:(lia)) as Px.
    pose proof (pow2_pos (ey + 1074) ltac:(lia)) as Py.
    f_equal.
    destruct sx, sy; cbn [cond_Zopp].
    + (* both negative *)
      destruct (Z.compare_spec ex ey) as [E | L | G].
      * subst ey. rewrite Z.compare_opp.
        rewrite mul_compare_pos_r by assumption.
        change (Pos.compare_cont Eq mx my) with (Pos.compare mx my).
        rewrite <- Pos.compare_antisym. reflexivity.
      * symmetry. apply Z.compare_gt_iff.
        pose proof (lt_by_exponent _ _ _ _ (bounded_canonical _ _ Vx) (bounded_canonical _ _ Vy) L). lia.
      * symmetry. apply Z.compare_lt_iff.
        pose proof (lt_by_exponent _ _ _ _ (bounded_canonical _ _ Vy) (bounded_canonical _ _ Vx) ltac:(lia)). lia.
    + symmetry. apply Z.compare_lt_iff. lia.
    + symmetry. apply Z.compare_gt_iff. lia.
    + destruct (Z.compare_spec ex ey) as [E | L | G].
      * subst ey. rewrite mul_compare_pos_r by assumption. reflexivity.
      * symmetry. apply Z.compare_lt_iff. apply lt_by_exponent; auto using bounded_canonical.
      * symmetry. apply Z.compare_gt_iff. apply lt_by_exponent; auto using bounded_canonical; lia.
Qed.

Lemma exponent_le_of_value_le (m1 m2 : positive) (e1 e2 : Z) :
  canonical_mantissa prec emax m1 e1 = true ->
  canonical_mantissa prec emax m2 e2 = true ->
  Zpos m1 * 2 ^ (e1 + 1074) <= Zpos m2 * 2 ^ (e2 + 1074) ->
  e1 <= e2.
Proof.
  intros C1 C2 H. destruct (Z.le_gt_cases e1 e2) as [|G]; auto.
  pose proof (lt_by_exponent _ _ _ _ C2 C1 G). lia.
Qed.

(** A canonical float above [V] is above the ceiling of [V] on the grid
    of exponent [e0], provided [V] lies in the binade of [e0]. *)
Lemma grid_upper (V e0 m0 : Z) (mb : positive) (eb : Z) :
  -1074 <= e0 ->
  canonical_mantissa prec emax mb eb = true ->
  (e0 = -1074 \/ 2 ^ 52 * 2 ^ (e0 + 1074) <= V) ->
  (forall A, V <= A * 2 ^ (e0 + 1074) -> m0 <= A) ->
  V <= Zpos mb * 2 ^ (eb + 1074) ->
  m0 * 2 ^ (e0 + 1074) <= Zpos mb * 2 ^ (eb + 1074).
Proof.
  intros He0 Cb Hbin Hceil Hle.
  pose proof (canonical_inv _ _ Cb) as (Reb & Ub & _).
  pose proof (pow2_pos (e0 + 1074) ltac:(lia)) as P0.
  destruct (Z.le_gt_cases e0 eb) as [Hge | Hlt].
  - rewrite (pow2_split (e0 + 1074) (eb + 1074)) in * by lia.
    set (G0 := 2 ^ (e0 + 1074)) in *.
    set (Q := 2 ^ (eb + 1074 - (e0 + 1074))) in *.
    specialize (Hceil (Zpos mb * Q)).
    assert (m0 <= Zpos mb * Q) by (apply Hceil; lia).
    assert (m0 * G0 <= Zpos mb * Q * G0) by (apply Z.mul_le_mono_nonneg_r; lia).
    lia.
  - exfalso. destruct Hbin as [E | Hbin]; [lia|].
    rewrite (pow2_split (eb + 1074) (e0 + 1074)) in Hbin by lia.
    pose proof (pow2_pos (eb + 1074) ltac:(lia)) as Pb.
    pose proof (pow2_ge2 (e0 + 1074 - (eb + 1074)) ltac:(lia)) as Q2.
    set (Gb := 2 ^ (eb + 1074)) in *.
    set (Q := 2 ^ (e0 + 1074 - (eb + 1074))) in *.
    change (2 ^ 53) with (2 ^ 52 * 2) in Ub.
    assert (Zpos mb * Gb < 2 ^ 52 * 2 * Gb) by (apply Z.mul_lt_mono_pos_r; lia).
    assert (2 ^ 52 * (Gb * 2) <= 2 ^ 52 * (Gb * Q)).
    { apply Z.mul_le_mono_nonneg_l; [lia|]. apply Z.mul_le_mono_nonneg_l; lia. }
    lia.
Qed.

Lemma grid_lower (V e0 m0 : Z) (ma : positive) (ea : Z) :
  -1074 <= e0 ->
  canonical_mantissa prec emax ma ea = true ->
  (e0 = -1074 \/ 2 ^ 52 <= m0) ->
  (forall A, A * 2 ^ (e0 + 1074) <= V -> A <= m0) ->
  Zpos ma * 2 ^ (ea + 1074) <= V ->
  Zpos ma * 2 ^ (ea + 1074) <= m0 * 2 ^ (e0 + 1074).
Proof.
  intros He0 Ca Hbin Hfloor Hle.
  pose proof (canonical_inv _ _ Ca) as (Rea & Ua & _).
  pose proof (pow2_pos (e0 + 1074) ltac:(lia)) as P0.
  destruct (Z.le_gt_cases e0 ea) as [Hge | Hlt].
  - rewrite (pow2_split (e0 + 1074) (ea + 1074)) in * by lia.
    set (G0 := 2 ^ (e0 + 1074)) in *.
    set (Q := 2 ^ (ea + 1074 - (e0 + 1074))) in *.
    specialize (Hfloor (Zpos ma * Q)).
    assert (Zpos ma * Q <= m0) by (apply Hfloor; lia).
    assert (Zpos ma * Q * G0 <= m0 * G0) by (apply Z.mul_le_mono_nonneg_r; lia).
    lia.
  - destruct Hbin as [E | Hbin]; [lia|].
    rewrite (pow2_split (ea + 1074) (e0 + 1074)) by lia.
    pose proof (pow2_pos (ea + 1074) ltac:(lia)) as Pa.
    pose proof (pow2_ge2 (e0 + 1074 - (ea + 1074)) ltac:(lia)) as Q2.
    set (Ga := 2 ^ (ea + 1074)) in *.
    set (Q := 2 ^ (e0 + 1074 - (ea + 1074))) in *.
    change (2 ^ 53) with (2 ^ 52 * 2) in Ua.
    assert (Zpos ma * Ga < 2 ^ 52 * 2 * Ga) by (apply Z.mul_lt_mono_pos_r; lia).
    assert (2 ^ 52 * (Ga * 2) <= 2 ^ 52 * (Ga * Q)).
    { apply Z.mul_le_mono_nonneg_l; [lia|]. apply Z.mul_le_mono_nonneg_l; lia. }
    assert (2 ^ 52 * (Ga * Q) <= m0 * (Ga * Q)).
    { apply Z.mul_le_mono_nonneg_r; [|lia]. apply Z.mul_nonneg_nonneg; lia. }
    lia.
Qed.

Lemma iter_pos_nat {A : Type} (f : A -> A) (p : positive) (x : A) :
  iter_pos f p x = Nat.iter (Pos.to_nat p) f x.
Proof.
  revert x. induction p as [p IH | p IH | ]; intros x; cbn [iter_pos].
  - rewrite !IH, Pos2Nat.inj_xI.
    replace (S (2 * Pos.to_nat p)) with (Pos.to_nat p + S (Pos.to_nat p))%nat by lia.
    rewrite Nat.iter_add. f_equal. rewrite Nat.iter_succ_r. reflexivity.
  - rewrite !IH, Pos2Nat.inj_xO.
    replace (2 * Pos.to_nat p)%nat with (Pos.to_nat p + Pos.to_nat p)%nat by lia.
    rewrite Nat.iter_add. reflexivity.
  - reflexivity.
Qed.

Lemma shr_1_m (r : shr_record) :
  0 <= shr_m r -> shr_m (shr_1 r) = shr_m r / 2.
Proof.
  destruct r as [m r s]. cbn [shr_m]. intros Hm.
  destruct m as [ | [p | p | ] | p]; cbn [shr_1 shr_m]; try lia; try reflexivity.
  - apply Z.div_unique with (r := 1); lia.
  - apply Z.div_unique with (r := 0); lia.
Qed.

Lemma shr_1_r (r : shr_record) :
  0 <= shr_m r -> shr_r (shr_1 r) = Z.odd (shr_m r).
Proof.
  destruct r as [m r s]. cbn [shr_m]. intros Hm.
  destruct m as [ | [p | p | ] | p]; cbn [shr_1 shr_r]; try reflexivity; lia.
Qed.

Lemma shr_iter (m : Z) (n : nat) :
  0 <= m ->
  let st := Nat.iter n shr_1 {| shr_m := m; shr_r := false; shr_s := false |} in
  shr_m st = m / 2 ^ Z.of_nat n /\
  (shr_r st = true -> shr_m st * 2 ^ Z.of_nat n < m).
Proof.
  intros Hm. induction n as [ | n IH]; cbn zeta.
  - cbn. rewrite Z.div_1_r. split; [reflexivity | discriminate].
  - cbn zeta in IH. destruct IH as [IHm IHr].
    rewrite Nat.iter_succ.
    set (st := Nat.iter n shr_1 _) in *.
    assert (Hst : 0 <= shr_m st) by (rewrite IHm; apply Z.div_pos; [lia | apply pow2_pos; lia]).
    rewrite shr_1_m, shr_1_r by assumption.
    rewrite Nat2Z.inj_succ, Z.pow_succ_r by lia.
    pose proof (pow2_pos (Z.of_nat n) ltac:(lia)) as Pn.
    split.
    + rewrite IHm. rewrite Z.div_div by lia. f_equal. lia.
    + intros Hodd.
      pose proof (Z.div_mod (shr_m st) 2 ltac:(lia)) as Hdm.
      rewrite Zmod_odd, Hodd in Hdm.
      assert (shr_m st * 2 ^ Z.of_nat n <= m).
      { rewrite IHm. rewrite Z.mul_comm. apply Z.mul_div_le. lia. }
      set (h := shr_m st / 2) in *.
      set (P := 2 ^ Z.of_nat n) in *.
      replace (h * (2 * P)) with ((2 * h) * P) by ring.
      assert ((2 * h) * P < shr_m st * P) by (apply Z.mul_lt_mono_pos_r; lia).
      lia.
Qed.

Lemma round_nearest_even_range (r : shr_record) :
  let m0 := round_nearest_even (shr_m r) (loc_of_shr_record r) in
  shr_m r <= m0 <= shr_m r + 1 /\ (m0 = shr_m r + 1 -> shr_r r = true).
Proof.
  destruct r as [m [|] [|]]; cbn; try (split; [lia | intros; reflexivity || lia]).
  destruct (Z.even m); split; try lia; intros; reflexivity || lia.
Qed.

Lemma iter_xO_value (m : positive) (p : positive) :
  Zpos (Pos.iter xO m p) = Zpos m * 2 ^ Zpos p.
Proof.
  induction p as [ | p IH] using Pos.peano_ind.
  - cbn. lia.
  - rewrite Pos.iter_succ, Pos2Z.inj_xO, IH, Pos2Z.inj_succ, Z.pow_succ_r by lia. ring.
Qed.

Lemma shr_fexp_noop (m : positive) (e : Z) :
  canonical_mantissa prec emax m e = true ->
  shr_fexp prec emax (Zpos m) e loc_Exact =
  ({| shr_m := Zpos m; shr_r := false; shr_s := false |}, e).
Proof.
  unfold canonical_mantissa, shr_fexp. intros H. apply Z.eqb_eq in H.
  cbn [Zdigits2 shr_record_of_loc]. rewrite H, Z.sub_diag. reflexivity.
Qed.

Lemma binary_round_aux_canonical (s : bool) (m : positive) (e : Z) :
  canonical_mantissa prec emax m e = true ->
  binary_round_aux prec emax s (Zpos m) e loc_Exact =
  if e <=? 971 then S754_finite s m e else S754_infinity s.
Proof.
  intros H. unfold binary_round_aux.
  rewrite (shr_fexp_noop _ _ H). cbn [shr_m loc_of_shr_record round_nearest_even].
  rewrite (shr_fexp_noop _ _ H). cbn [shr_m]. reflexivity.
Qed.

Lemma fexp_unfold (z : Z) : fexp prec emax z = Z.max (z - 53) (-1074).
Proof. reflexivity. Qed.

Lemma canonical_of_range (m : positive) (e : Z) :
  -1074 <= e -> 2 ^ 52 <= Zpos m < 2 ^ 53 ->
  canonical_mantissa prec emax m e = true.
Proof.
  intros He Hm. unfold canonical_mantissa. apply Z.eqb_eq.
  rewrite (digits2_pos_unique m 53) by (change (53 - 1) with 52; lia).
  rewrite fexp_unfold. lia.
Qed.

Lemma binary_round_spec (s : bool) (M : positive) (ez : Z) :
  -1074 <= ez ->
  exists m' e',
    binary_round prec emax s M ez =
      (if e' <=? 971 then S754_finite s m' e' else S754_infinity s) /\
    canonical_mantissa prec emax m' e' = true /\
    brackets (Zpos M * 2 ^ (ez + 1074)) (Zpos m' * 2 ^ (e' + 1074)).
Proof.
  intros Hez.
  pose proof (digits2_pos_bounds M) as [Dlo Dhi].
  unfold binary_round.
  set (d := Zpos (digits2_pos M)) in *.
  set (e0 := fexp prec emax (d + ez)).
  assert (He0 : e0 = Z.max (d + ez - 53) (-1074)) by reflexivity.
  assert (Hd : 0 < d) by (unfold d; lia).
  unfold shl_align.
  destruct (e0 - ez) as [ | p | p] eqn:Hsub.
  - (* the mantissa already sits on the target exponent *)
    assert (e0 = ez) by lia.
    assert (C : canonical_mantissa prec emax M ez = true).
    { unfold canonical_mantissa. apply Z.eqb_eq. fold d. fold e0. assumption. }
    exists M, ez. rewrite (binary_round_aux_canonical _ _ _ C).
    repeat split; auto.
  - (* too many digits: shift right and round *)
    assert (Hp : e0 = ez + Zpos p) by lia.
    assert (Hd53 : d = 53 + Zpos p) by lia.
    set (n := Pos.to_nat p).
    assert (Hn : Z.of_nat n = Zpos p) by apply positive_nat_Z.
    set (st := Nat.iter n shr_1 {| shr_m := Zpos M; shr_r := false; shr_s := false |}).
    assert (H1 : shr_fexp prec emax (Zpos M) ez loc_Exact = (st, e0)).
    { unfold shr_fexp. cbn [Zdigits2 shr_record_of_loc]. fold d. fold e0.
      rewrite Hsub. cbn [shr]. rewrite iter_pos_nat. fold n. fold st.
      f_equal. lia. }
    destruct (shr_iter (Zpos M) n ltac:(lia)) as [Hq Hr]. fold st in Hq, Hr.
    rewrite Hn in Hq, Hr.
    pose proof (round_nearest_even_range st) as [Hm0 Hup]. cbn zeta in Hm0, Hup.
    set (m0 := round_nearest_even (shr_m st) (loc_of_shr_record st)) in *.
    set (P := 2 ^ Zpos p) in *.
    assert (HP : 0 < P) by (apply pow2_pos; lia).
    assert (HMlo : 2 ^ 52 * P <= Zpos M).
    { unfold P. rewrite <- Z.pow_add_r by lia.
      replace (52 + Zpos p) with (d - 1) by lia. assumption. }
    assert (HMhi : Zpos M < 2 ^ 53 * P).
    { unfold P. rewrite <- Z.pow_add_r by lia.
      replace (53 + Zpos p) with d by lia. assumption. }
    assert (Hqlo : 2 ^ 52 <= shr_m st).
    { rewrite Hq. apply Z.div_le_lower_bound; lia. }
    assert (Hqhi : shr_m st < 2 ^ 53).
    { rewrite Hq. apply Z.div_lt_upper_bound; lia. }
    assert (HqP : shr_m st * P <= Zpos M).
    { rewrite Hq, Z.mul_comm. apply Z.mul_div_le. lia. }
    pose proof (pow2_pos (ez + 1074) ltac:(lia)) as HGz.
    assert (HG0 : 2 ^ (e0 + 1074) = 2 ^ (ez + 1074) * P).
    { unfold P. rewrite <- Z.pow_add_r by lia. f_equal. lia. }
    assert (Hbr : brackets (Zpos M * 2 ^ (ez + 1074)) (m0 * 2 ^ (e0 + 1074))).
    { split.
      - intros ma ea Ca Hle. apply grid_lower with (V := Zpos M * 2 ^ (ez + 1074)); auto; try lia.
        intros A HA. rewrite HG0 in HA.
        assert (A * P <= Zpos M).
        { apply Z.mul_le_mono_pos_r with (p := 2 ^ (ez + 1074)); lia. }
        assert (A <= shr_m st).
        { rewrite Hq. apply Z.div_le_lower_bound; lia. }
        lia.
      - intros mb eb Cb Hle. apply grid_upper with (V := Zpos M * 2 ^ (ez + 1074)); auto; try lia.
        + right. rewrite HG0.
          replace (2 ^ 52 * (2 ^ (ez + 1074) * P)) with (2 ^ 52 * P * 2 ^ (ez + 1074)) by ring.
          apply Z.mul_le_mono_nonneg_r; lia.
        + intros A HA. rewrite HG0 in HA.
          assert (HMA : Zpos M <= A * P).
          { apply Z.mul_le_mono_pos_r with (p := 2 ^ (ez + 1074)); lia. }
          assert (HqA : shr_m st <= A).
          { destruct (Z.le_gt_cases (shr_m st) A) as [|G]; auto.
            assert ((A + 1) * P <= shr_m st * P) by (apply Z.mul_le_mono_nonneg_r; lia).
            lia. }
          destruct (Z.eq_dec m0 (shr_m st + 1)) as [E | NE]; [|lia].
          specialize (Hr (Hup E)).
          destruct (Z.eq_dec (shr_m st) A) as [EA | ]; [|lia].
          rewrite EA in Hr. lia. }
    unfold binary_round_aux. rewrite H1. fold m0. clearbody m0.
    destruct (Z.eq_dec m0 (2 ^ 53)) as [E53 | N53].
    + (* rounding carried into the next binade *)
      exists 4503599627370496%positive, (e0 + 1).
      assert (H2 : shr_fexp prec emax m0 e0 loc_Exact =
                   ({| shr_m := 4503599627370496; shr_r := false; shr_s := false |}, e0 + 1)).
      { rewrite E53. unfold shr_fexp.
        change (Zdigits2 (2 ^ 53)) with 54. rewrite fexp_unfold.
        replace (Z.max (54 + e0 - 53) (-1074) - e0) with 1 by lia.
        reflexivity. }
      rewrite H2. cbn [shr_m].
      replace (Z.sub emax prec) with 971 by reflexivity.
      split; [reflexivity|]. split.
      * apply canonical_of_range; [lia|]. cbn. lia.
      * replace (Zpos 4503599627370496 * 2 ^ (e0 + 1 + 1074)) with (m0 * 2 ^ (e0 + 1074)); auto.
        rewrite E53. replace (e0 + 1 + 1074) with (Z.succ (e0 + 1074)) by lia.
        rewrite Z.pow_succ_r by lia. change (2 ^ 53) with (4503599627370496 * 2). ring.
    + destruct m0 as [ | m0p | m0p] eqn:Em0; try lia.
      assert (C : canonical_mantissa prec emax m0p e0 = true).
      { apply canonical_of_range; lia. }
      exists m0p, e0.
      rewrite (shr_fexp_noop _ _ C). cbn [shr_m].
      replace (Z.sub emax prec) with 971 by reflexivity.
      repeat split; auto; apply Hbr.
  - (* too few digits: shift left, exactly *)
    assert (Hp : ez = e0 + Zpos p) by lia.
    set (mz := Pos.iter xO M p).
    assert (Hmz : Zpos mz = Zpos M * 2 ^ Zpos p) by apply iter_xO_value.
    assert (HP : 0 < 2 ^ Zpos p) by (apply pow2_pos; lia).
    assert (Hdz : Zpos (digits2_pos mz) = d + Zpos p).
    { apply digits2_pos_unique. rewrite Hmz.
      replace (d + Zpos p - 1) with ((d - 1) + Zpos p) by lia.
      rewrite !Z.pow_add_r by lia. split.
      - apply Z.mul_le_mono_nonneg_r; lia.
      - apply Z.mul_lt_mono_pos_r; lia. }
    assert (C : canonical_mantissa prec emax mz e0 = true).
    { unfold canonical_mantissa. apply Z.eqb_eq. rewrite Hdz.
      replace (d + Zpos p + e0) with (d + ez) by lia. reflexivity. }
    exists mz, e0. cbn [fst snd]. rewrite (binary_round_aux_canonical _ _ _ C).
    split; [reflexivity|]. split; [assumption|].
    replace (Zpos mz * 2 ^ (e0 + 1074)) with (Zpos M * 2 ^ (ez + 1074)).
    + split; auto.
    + rewrite Hmz, Hp. replace (e0 + Zpos p + 1074) with (Zpos p + (e0 + 1074)) by lia.
      rewrite (Z.pow_add_r 2 (Zpos p) (e0 + 1074)) by lia. ring.
Qed.

Lemma scaled_sign (x : spec_float) :
  valid_binary x = true -> finite_sf x = true ->
  match x with
  | S754_finite false _ _ => 0 < scaled x
  | S754_finite true _ _ => scaled x < 0
  | _ => scaled x = 0
  end.
Proof.
  intros V F. destruct x as [ | | | s m e]; try reflexivity.
  cbn [valid_binary] in V. apply bounded_inv in V as (R & _ & _).
  pose proof (pow2_pos (e + 1074) ltac:(lia)).
  destruct s; cbn [scaled cond_Zopp]; nia.
Qed.

Lemma binary_normalize_between (M ez : Z) (a b : spec_float) :
  -1074 <= ez ->
  valid_binary a = true -> valid_binary b = true ->
  finite_sf a = true -> finite_sf b = true ->
  scaled a <= M * 2 ^ (ez + 1074) <= scaled b ->
  let r := binary_normalize prec emax M ez false in
  valid_binary r = true /\ finite_sf r = true /\ scaled a <= scaled r <= scaled b.
Proof.
  intros Hez Va Vb Fa Fb [Hlo Hhi] r. subst r.
  pose proof (pow2_pos (ez + 1074) ltac:(lia)) as HG.
  pose proof (scaled_sign a Va Fa) as Sa.
  pose proof (scaled_sign b Vb Fb) as Sb.
  destruct M as [ | Mp | Mp]; cbn [binary_normalize].
  - cbn [valid_binary finite_sf scaled]. repeat split; lia.
  - destruct (binary_round_spec false Mp ez Hez) as (m' & e' & Hr & C & Blo & Bhi).
    pose proof (canonical_inv _ _ C) as (Re' & _ & _).
    pose proof (pow2_pos (e' + 1074) ltac:(lia)) as HG'.
    assert (HV : 0 < Zpos Mp * 2 ^ (ez + 1074)) by nia.
    destruct b as [ | | | [|] mb eb]; try discriminate; try lia.
    cbn [scaled cond_Zopp valid_binary] in *.
    pose proof (Bhi mb eb (bounded_canonical _ _ Vb) Hhi) as HR.
    pose proof (exponent_le_of_value_le _ _ _ _ C (bounded_canonical _ _ Vb) HR) as Hee.
    pose proof (bounded_inv _ _ Vb) as (Reb & _ & _).
    rewrite Hr. replace (e' <=? 971) with true by (symmetry; apply Z.leb_le; lia).
    cbn [valid_binary finite_sf scaled cond_Zopp].
    split; [|split; [reflexivity|split; [|assumption]]].
    + unfold bounded. rewrite C. apply Z.leb_le. unfold emax, prec. lia.
    + destruct a as [ | | | [|] ma ea]; try discriminate; cbn [scaled cond_Zopp] in *; try nia.
      apply Blo; auto using bounded_canonical.
  - destruct (binary_round_spec true Mp ez Hez) as (m' & e' & Hr & C & Blo & Bhi).
    pose proof (canonical_inv _ _ C) as (Re' & _ & _).
    pose proof (pow2_pos (e' + 1074) ltac:(lia)) as HG'.
    assert (HV : Zneg Mp * 2 ^ (ez + 1074) < 0) by nia.
    assert (HVn : Zneg Mp * 2 ^ (ez + 1074) = - (Zpos Mp * 2 ^ (ez + 1074))) by lia.
    destruct a as [ | | | [|] ma ea]; try discriminate; try lia.
    cbn [scaled cond_Zopp valid_binary] in *.
    pose proof (Bhi ma ea (bounded_canonical _ _ Va) ltac:(lia)) as HR.
    pose proof (exponent_le_of_value_le _ _ _ _ C (bounded_canonical _ _ Va) HR) as Hee.
    pose proof (bounded_inv _ _ Va) as (Rea & _ & _).
    rewrite Hr. replace (e' <=? 971) with true by (symmetry; apply Z.leb_le; lia).
    cbn [valid_binary finite_sf scaled cond_Zopp].
    split; [|split; [reflexivity|split; [lia|]]].
    + unfold bounded. rewrite C. apply Z.leb_le. unfold emax, prec. lia.
    + destruct b as [ | | | [|] mb eb]; try discriminate; cbn [scaled cond_Zopp] in *; try nia.
      pose proof (Blo mb eb (bounded_canonical _ _ Vb) ltac:(lia)). lia.
Qed.

Lemma shl_align_value (m : positive) (e ez : Z) :
  -1074 <= ez <= e ->
  Zpos (fst (shl_align m e ez)) * 2 ^ (ez + 1074) = Zpos m * 2 ^ (e + 1074).
Proof.
  intros H. unfold shl_align.
  destruct (ez - e) as [ | p | p] eqn:E; cbn [fst].
  - replace ez with e by lia. reflexivity.
  - lia.
  - rewrite iter_xO_value. replace (e + 1074) with (Zpos p + (ez + 1074)) by lia.
    rewrite (Z.pow_add_r 2 (Zpos p) (ez + 1074)) by lia. ring.
Qed.

Lemma SF64add_between (x y a b : spec_float) :
  valid_binary x = true -> valid_binary y = true ->
  valid_binary a = true -> valid_binary b = true ->
  finite_sf x = true -> finite_sf y = true ->
  finite_sf a = true -> finite_sf b = true ->
  scaled a <= scaled x + scaled y <= scaled b ->
  valid_binary (SF64add x y) = true /\ finite_sf (SF64add x y) = true /\
  scaled a <= scaled (SF64add x y) <= scaled b.
Proof.
  intros Vx Vy Va Vb Fx Fy Fa Fb H.
  destruct x as [sx | sx | | sx mx ex]; try discriminate;
  destruct y as [sy | sy | | sy my ey]; try discriminate.
  - destruct sx, sy; cbn in *; repeat split; lia.
  - change (SF64add (S754_zero sx) (S754_finite sy my ey)) with (S754_finite sy my ey).
    change (scaled (S754_zero sx)) with 0 in H. rewrite Z.add_0_l in H. auto.
  - change (SF64add (S754_finite sx mx ex) (S754_zero sy)) with (S754_finite sx mx ex).
    change (scaled (S754_zero sy)) with 0 in H. rewrite Z.add_0_r in H. auto.
  - unfold SF64add, SFadd.
    cbn [valid_binary] in Vx, Vy.
    pose proof (bounded_inv _ _ Vx) as (Rx & _ & _).
    pose proof (bounded_inv _ _ Vy) as (Ry & _ & _).
    apply binary_normalize_between; auto; try lia.
    rewrite Z.mul_add_distr_r.
    assert (Ex : cond_Zopp sx (Zpos (fst (shl_align mx ex (Z.min ex ey)))) * 2 ^ (Z.min ex ey + 1074)
                 = scaled (S754_finite sx mx ex)).
    { cbn [scaled]. destruct sx; cbn [cond_Zopp];
        rewrite ?Z.mul_opp_l, shl_align_value by lia; reflexivity. }
    assert (Ey : cond_Zopp sy (Zpos (fst (shl_align my ey (Z.min ex ey)))) * 2 ^ (Z.min ex ey + 1074)
                 = scaled (S754_finite sy my ey)).
    { cbn [scaled]. destruct sy; cbn [cond_Zopp];
        rewrite ?Z.mul_opp_l, shl_align_value by lia; reflexivity. }
    rewrite Ex, Ey. assumption.
Qed.

(** ** Python's rounding and ordering on exact values *)

Lemma valid_prim (x : float) : valid_binary (Prim2SF x) = true.
Proof. apply Prim2SF_valid. Qed.

Lemma leb_value (x y : float) :
  finite x = true -> finite y = true ->
  (x <=? y)%float = (value x <=? value y).
Proof.
  intros Fx Fy. rewrite leb_spec. unfold SFleb.
  rewrite (SFcompare_scaled _ _ (valid_prim x) (valid_prim y) Fx Fy).
  unfold value, Z.leb. destruct (scaled (Prim2SF x) ?= scaled (Prim2SF y)); reflexivity.
Qed.

Lemma ltb_value (x y : float) :
  finite x = true -> finite y = true ->
  (x <? y)%float = (value x <? value y).
Proof.
  intros Fx Fy. rewrite ltb_spec. unfold SFltb.
  rewrite (SFcompare_scaled _ _ (valid_prim x) (valid_prim y) Fx Fy).
  unfold value, Z.ltb. destruct (scaled (Prim2SF x) ?= scaled (Prim2SF y)); reflexivity.
Qed.

Lemma between_finite (lo x hi : float) :
  finite lo = true -> finite hi = true ->
  (lo <=? x)%float = true -> (x <=? hi)%float = true ->
  finite x = true.
Proof.
  unfold finite. rewrite !leb_spec. unfold SFleb.
  destruct (Prim2SF lo) as [ | | | ]; try discriminate;
  destruct (Prim2SF hi) as [ | | | ]; try discriminate;
  destruct (Prim2SF x) as [ | [|] | | ]; cbn; intros; try reflexivity; discriminate.
Qed.

Lemma between_value (lo x hi : float) :
  finite lo = true -> finite hi = true ->
  (lo <=? x)%float = true -> (x <=? hi)%float = true ->
  finite x = true /\ value lo <= value x <= value hi.
Proof.
  intros Flo Fhi H1 H2.
  assert (Fx : finite x = true) by (apply (between_finite lo x hi); assumption).
  rewrite leb_value in H1, H2 by assumption.
  apply Z.leb_le in H1, H2. auto.
Qed.

Lemma between_inv (a b x : float) :
  finite a = true -> finite b = true ->
  between a b x = true ->
  finite x = true /\ value a <= value x <= value b.
Proof.
  unfold between. intros Fa Fb H. apply andb_true_iff in H as [H1 H2].
  apply between_value; assumption.
Qed.

Lemma value_between (lo x hi : float) :
  finite lo = true -> finite x = true -> finite hi = true ->
  value lo <= value x <= value hi ->
  (lo <=? x)%float = true /\ (x <=? hi)%float = true.
Proof.
  intros Flo Fx Fhi [H1 H2]. rewrite !leb_value by assumption.
  split; apply Z.leb_le; assumption.
Qed.

Lemma add_between (x y lo hi : float) :
  finite x = true -> finite y = true -> finite lo = true -> finite hi = true ->
  value lo <= value x + value y <= value hi ->
  finite (x + y) = true /\ value lo <= value (x + y) <= value hi.
Proof.
  intros Fx Fy Flo Fhi H. unfold finite, value in *. rewrite add_spec.
  destruct (SF64add_between (Prim2SF x) (Prim2SF y) (Prim2SF lo) (Prim2SF hi))
    as (_ & F & B); auto using valid_prim.
Qed.

Lemma half_even_div_bounds (n d L H : Z) :
  0 < d ->
  (2 * L - 1) * d < 2 * n -> 2 * n < (2 * H + 1) * d ->
  L <= Py.half_even_div n d <= H.
Proof.
  intros Hd Hlo Hhi. unfold Py.half_even_div.
  pose proof (Z.div_mod n d ltac:(lia)) as Hdm.
  pose proof (Z.mod_pos_bound n d Hd) as Hr.
  set (q := n / d) in *. set (r := n mod d) in *.
  assert (Hq1 : L <= q + 1) by nia.
  assert (Hq2 : q <= H) by nia.
  destruct (Z.compare_spec (2 * r) d) as [E | Lt | Gt].
  - assert (L <= q) by nia. assert (q + 1 <= H) by nia.
    destruct (Z.even q); lia.
  - assert (L <= q) by nia. lia.
  - assert (q + 1 <= H) by nia. lia.
Qed.

Lemma decimal_units_bounds (m : positive) (e : Z) (nd : nat) (L H : Z) :
  -1074 <= e ->
  (2 * L - 1) * 2 ^ 1074 < 2 * 10 ^ Z.of_nat nd * (Zpos m * 2 ^ (e + 1074)) ->
  2 * 10 ^ Z.of_nat nd * (Zpos m * 2 ^ (e + 1074)) < (2 * H + 1) * 2 ^ 1074 ->
  L <= Py.decimal_units m e nd <= H.
Proof.
  intros He Hlo Hhi. unfold Py.decimal_units.
  set (sc := 10 ^ Z.of_nat nd) in *.
  destruct (Z.leb_spec 0 e) as [Hpos | Hneg].
  - rewrite (Z.add_comm e 1074), (Z.pow_add_r 2 1074 e) in Hlo, Hhi by lia.
    set (G := 2 ^ 1074) in *. assert (0 < G) by (apply pow2_pos; lia).
    set (k := Zpos m * sc * 2 ^ e).
    replace (2 * sc * (Zpos m * (G * 2 ^ e))) with (2 * k * G) in Hlo, Hhi by (unfold k; ring).
    assert (2 * L - 1 < 2 * k) by (apply Z.mul_lt_mono_pos_r with (p := G); lia).
    assert (2 * k < 2 * H + 1) by (apply Z.mul_lt_mono_pos_r with (p := G); lia).
    lia.
  - assert (HG : 2 ^ 1074 = 2 ^ (- e) * 2 ^ (e + 1074)).
    { rewrite <- Z.pow_add_r by lia. f_equal. lia. }
    rewrite HG in Hlo, Hhi.
    set (G := 2 ^ (e + 1074)) in *. assert (0 < G) by (apply pow2_pos; lia).
    set (d := 2 ^ (- e)) in *. assert (0 < d) by (apply pow2_pos; lia).
    apply half_even_div_bounds; auto.
    + apply Z.mul_lt_mono_pos_r with (p := G); auto.
      replace (2 * (Zpos m * sc) * G) with (2 * sc * (Zpos m * G)) by ring. lia.
    + apply Z.mul_lt_mono_pos_r with (p := G); auto.
      replace (2 * (Zpos m * sc) * G) with (2 * sc * (Zpos m * G)) by ring. lia.
Qed.

(** Rounding a positive float whose decimal expansion lies strictly
    between the half-way points [L - 1/2] and [H + 1/2] (in units of
    [10^-nd]) yields the double nearest to [k / 10^nd] for some
    [L <= k <= H]. *)
Lemma round_units (x : float) (nd : nat) (L H : Z) :
  finite x = true -> 1 <= L ->
  (2 * L - 1) * 2 ^ 1074 < 2 * 10 ^ Z.of_nat nd * value x ->
  2 * 10 ^ Z.of_nat nd * value x < (2 * H + 1) * 2 ^ 1074 ->
  exists k : positive,
    L <= Zpos k <= H /\
    Py.round x nd = Py.nearest_ratio false k (Py.pow10 nd).
Proof.
  intros Fx HL Hlo Hhi. unfold Py.round, value, finite in *.
  pose proof (valid_prim x) as V.
  assert (0 < 10 ^ Z.of_nat nd) by (apply Z.pow_pos_nonneg; lia).
  assert (0 < 2 ^ 1074) by (apply pow2_pos; lia).
  pose proof (scaled_sign _ V Fx) as S.
  destruct (Prim2SF x) as [ | | | [|] m e]; try discriminate; try nia.
  cbn [scaled cond_Zopp valid_binary] in *.
  pose proof (bounded_inv _ _ V) as (Re & _ & _).
  pose proof (decimal_units_bounds m e nd L H ltac:(lia) Hlo Hhi) as Hk.
  destruct (Py.decimal_units m e nd) as [ | k | k]; try lia.
  exists k. split; [lia | reflexivity].
Qed.

(** The same for a non-negative float: the result may also be a zero. *)
Lemma round_units_nonneg (x : float) (nd : nat) (H : Z) :
  finite x = true -> 0 <= value x ->
  2 * 10 ^ Z.of_nat nd * value x < (2 * H + 1) * 2 ^ 1074 ->
  (Py.round x nd = x /\ value x = 0) \/
  Py.round x nd = 0%float \/
  exists k : positive,
    1 <= Zpos k <= H /\
    Py.round x nd = Py.nearest_ratio false k (Py.pow10 nd).
Proof.
  intros Fx Hlo Hhi. unfold Py.round, value, finite in *.
  pose proof (valid_prim x) as V.
  assert (0 < 10 ^ Z.of_nat nd) by (apply Z.pow_pos_nonneg; lia).
  assert (0 < 2 ^ 1074) by (apply pow2_pos; lia).
  pose proof (scaled_sign _ V Fx) as S.
  destruct (Prim2SF x) as [ sz | | | [|] m e] eqn:E; try discriminate; try nia.
  - left. split; reflexivity.
  - cbn [scaled cond_Zopp valid_binary] in *.
    pose proof (bounded_inv _ _ V) as (Re & _ & _).
    assert (Hk : 0 <= Py.decimal_units m e nd <= H).
    { apply decimal_units_bounds; try lia. }
    destruct (Py.decimal_units m e nd) as [ | k | k]; try lia.
    + right. left. reflexivity.
    + right. right. exists k. split; [lia | reflexivity].
Qed.

(** ** The builtins on sample values *)

Example round_half_even : Py.round 0.125 2 = 0.12%float.
Proof. vm_compute. reflexivity. Qed.

Example round_inexact_literal : Py.round 2.675 2 = 2.67%float.
Proof. vm_compute. reflexivity. Qed.

Example round_one_decimal : Py.round 90.15 1 = 90.2%float.
Proof. vm_compute. reflexivity. Qed.

Example round_no_decimal : Py.round 2.5 0 = 2%float /\ Py.round 3.5 0 = 4%float.
Proof. split; vm_compute; reflexivity. Qed.

Example round_negative : Py.round (-121.0625) 2 = (-121.06)%float.
Proof. vm_compute. reflexivity. Qed.

Example min_keeps_first_on_nan : Py.min 1 nan = 1%float.
Proof. vm_compute. reflexivity. Qed.

Example str_decimal : Py.str 12 = "12"%string.
Proof. reflexivity. Qed.

Example buoy_label :
  buoy (generate_buoy_reading 3 0 fine_draws) = "B-3"%string.
Proof. reflexivity. Qed.

(** One anomalous row out of three latest rows gives a health of
    66.7 percent, as displayed with one decimal. *)
Example health_one_of_three :
  health_score (latest_per_buoy (new_rows sample_world 3 0)) = 66.66666666666667%float.
Proof. vm_compute. reflexivity. Qed.

(** ** The decimal grid *)

Lemma pos_range_In (lo hi : nat) (k : positive) :
  Z.of_nat lo <= Zpos k <= Z.of_nat hi -> In k (pos_range lo hi).
Proof.
  intros H. unfold pos_range. apply in_map_iff.
  exists (Pos.to_nat k). split; [apply Pos2Nat.id|].
  apply in_seq. pose proof (positive_nat_Z k). lia.
Qed.

Lemma grid_ok_at (nd : nat) (a b : float) (lo hi : nat) (k : positive) :
  grid_ok nd a b lo hi = true ->
  Z.of_nat lo <= Zpos k <= Z.of_nat hi ->
  let v := Py.nearest_ratio false k (Py.pow10 nd) in
  between a b v = true /\ is_rounded nd v.
Proof.
  intros G Hk v. unfold grid_ok in G. rewrite forallb_forall in G.
  specialize (G k (pos_range_In _ _ _ Hk)). cbv zeta in G. fold v in G.
  apply andb_true_iff in G as [G1 G2].
  split; [exact G1 | apply Leibniz.eqb_spec; exact G2].
Qed.

(** Rounding keeps a draw from [[a, b]] inside [[a, b]] when both ends
    are multiples of [10^-nd], and its result is a fixed point. *)
Lemma round_range (nd : nat) (a b x : float) (lo hi : nat) :
  grid_ok nd a b lo hi = true ->
  (1 <= lo)%nat ->
  finite a = true -> finite b = true ->
  10 ^ Z.of_nat nd * value a = Z.of_nat lo * 2 ^ 1074 ->
  10 ^ Z.of_nat nd * value b = Z.of_nat hi * 2 ^ 1074 ->
  between a b x = true ->
  between a b (Py.round x nd) = true /\ is_rounded nd (Py.round x nd).
Proof.
  intros G Hlo Fa Fb Va Vb Hx.
  destruct (between_inv a b x Fa Fb Hx) as (Fx & Hx1 & Hx2).
  assert (HG : 0 < 2 ^ 1074) by (apply pow2_pos; lia).
  assert (HS : 0 < 10 ^ Z.of_nat nd) by (apply Z.pow_pos_nonneg; lia).
  assert (H1 : (2 * Z.of_nat lo - 1) * 2 ^ 1074 < 2 * 10 ^ Z.of_nat nd * value x) by nia.
  assert (H2 : 2 * 10 ^ Z.of_nat nd * value x < (2 * Z.of_nat hi + 1) * 2 ^ 1074) by nia.
  destruct (round_units x nd (Z.of_nat lo) (Z.of_nat hi) Fx ltac:(lia) H1 H2) as (k & Hk & E).
  rewrite E. apply (grid_ok_at nd a b lo hi k G Hk).
Qed.

Lemma temp_grid : grid_ok 2 5 18 500 1800 = true.
Proof. vm_compute. reflexivity. Qed.

Lemma depth_grid : grid_ok 1 50 300 500 3000 = true.
Proof. vm_compute. reflexivity. Qed.

Lemma sound_grid : grid_ok 1 20 120 200 1200 = true.
Proof. vm_compute. reflexivity. Qed.

Lemma wave_grid : grid_ok 2 0.5 3.5 50 350 = true.
Proof. vm_compute. reflexivity. Qed.

Lemma prob_grid : grid_ok 2 0 1 1 100 = true.
Proof. vm_compute. reflexivity. Qed.

(** ** The generator *)

(** Closed goals on concrete floats are settled by evaluation. *)
Ltac closed_float := vm_compute; reflexivity.

Lemma rule_sum_range (d : Draws) :
  finite (rule_sum d) = true /\ 0 <= value (rule_sum d) <= value 1.
Proof.
  unfold rule_sum. cbv zeta.
  destruct (85 <? u_sound d)%float, ((8 <? u_temp d) && (u_temp d <? 16))%float,
           (80 <? u_depth d)%float, (u_wave d <? 2)%float;
    (split; [closed_float | split; apply Z.leb_le; closed_float]).
Qed.

Lemma finite_0 : finite 0 = true. Proof. closed_float. Qed.
Lemma finite_1 : finite 1 = true. Proof. closed_float. Qed.
Lemma finite_0_2 : finite 0.2 = true. Proof. closed_float. Qed.
Lemma finite_1_5 : finite 1.5 = true. Proof. closed_float. Qed.
Lemma finite_m2 : finite (-2) = true. Proof. closed_float. Qed.
Lemma finite_2 : finite 2 = true. Proof. closed_float. Qed.

Create HintDb b64 discriminated.
#[local] Hint Resolve finite_0 finite_1 finite_0_2 finite_1_5 finite_m2 finite_2 : b64.

Lemma value_0 : value 0 = 0. Proof. closed_float. Qed.
Lemma value_1 : value 1 = 2 ^ 1074. Proof. closed_float. Qed.
Lemma value_1_5 : value 1 + value 0.2 <= value 1.5.
Proof. apply Z.leb_le. closed_float. Qed.

Lemma clamped_prob_range (d : Draws) :
  jitter_in_range d = true ->
  finite (clamped_prob d) = true /\
  value (rule_sum d) <= value (clamped_prob d) <= value 1.
Proof.
  intros Hj. unfold jitter_in_range in Hj.
  destruct (between_inv 0 0.2 (u_jitter d)) as (Fj & Hj1 & Hj2); auto with b64.
  destruct (rule_sum_range d) as (Fp & Hp1 & Hp2).
  rewrite value_0 in Hj1.
  pose proof value_1_5 as H15.
  assert (Hsum : value (rule_sum d) <= value (rule_sum d) + value (u_jitter d) <= value 1.5)
    by lia.
  destruct (add_between (rule_sum d) (u_jitter d) (rule_sum d) 1.5)
    as (Fs & Hs1 & Hs2); auto with b64.
  unfold clamped_prob, Py.min.
  rewrite ltb_value by auto with b64.
  destruct (Z.ltb_spec (value (rule_sum d + u_jitter d)) (value 1)).
  - split; [assumption | lia].
  - split; [auto with b64 | lia].
Qed.

Lemma round_zero_cases :
  between 0 1 0 = true /\ is_rounded 2 0.
Proof. split; [closed_float | apply Leibniz.eqb_spec; closed_float]. Qed.

Lemma whale_prob_rounded (d : Draws) :
  jitter_in_range d = true ->
  between 0 1 (Py.round (clamped_prob d) 2) = true /\
  is_rounded 2 (Py.round (clamped_prob d) 2).
Proof.
  intros Hj. destruct (clamped_prob_range d Hj) as (Fc & Hc1 & Hc2).
  destruct (rule_sum_range d) as (_ & Hp1 & _).
  assert (HG : 0 < 2 ^ 1074) by (apply pow2_pos; lia).
  pose proof value_1 as V1.
  assert (Hlo : 0 <= value (clamped_prob d)) by lia.
  assert (Hhi : 2 * 10 ^ Z.of_nat 2 * value (clamped_prob d) < (2 * 100 + 1) * 2 ^ 1074).
  { change (10 ^ Z.of_nat 2) with 100. lia. }
  destruct (round_units_nonneg (clamped_prob d) 2 100 Fc Hlo Hhi)
    as [[E Z0] | [E | (k & Hk & E)]].
  - unfold is_rounded. rewrite !E. split; [|reflexivity].
    unfold between. rewrite !leb_value by auto with b64.
    rewrite Z0, value_0, V1. apply andb_true_iff. split; apply Z.leb_le; lia.
  - rewrite E. exact round_zero_cases.
  - rewrite E. apply (grid_ok_at 2 0 1 1 100 k prob_grid). lia.
Qed.

Lemma new_rows_In (w : World) (B step : nat) (r : Reading) :
  In r (new_rows w B step) ->
  exists i, (i < B)%nat /\
            r = generate_buoy_reading (i + 1) (now w step i) (draws w step i).
Proof.
  unfold new_rows. intros H. apply in_map_iff in H as (i & E & Hi).
  apply in_seq in Hi. exists i. split; [lia | congruence].
Qed.

Lemma log_after_In (w : World) (B T : nat) (log0 : list Reading) (r : Reading) :
  In r (log_after w B log0 T) ->
  In r log0 \/
  exists step i, (step < T)%nat /\ (i < B)%nat /\
    r = generate_buoy_reading (i + 1) (now w step i) (draws w step i).
Proof.
  unfold log_after, rows_of. intros H. apply in_app_or in H as [H | H]; [left; exact H | right].
  apply in_concat in H as (rows & Hrows & Hr).
  apply in_map_iff in Hrows as (step & E & Hstep). subst rows.
  apply in_seq in Hstep. apply new_rows_In in Hr as (i & Hi & E).
  exists step, i. repeat split; auto; lia.
Qed.

(** C1. Every reading the generator appends to the log stores a whale
    probability between 0 and 1: the rule sum is non-negative, the
    jitter is drawn from [0, 0.2], [min(1.0, .)] bounds the sum from
    above, and rounding to two decimals keeps the bounds. *)
Theorem whale_prob_in_unit_interval
  (w : World) (B T : nat) (r : Reading) :
  (forall step i, jitter_in_range (draws w step i) = true) ->
  In r (log_after w B [] T) ->
  (0 <=? whale_prob r)%float = true /\ (whale_prob r <=? 1)%float = true.
Proof.
  intros Hw Hr. apply log_after_In in Hr as [[] | (step & i & _ & _ & E)].
  subst r. cbn [whale_prob generate_buoy_reading].
  destruct (whale_prob_rounded (draws w step i) (Hw step i)) as [H _].
  unfold between in H. apply andb_true_iff in H. exact H.
Qed.

Lemma whale_prob_in_unit_interval_witness :
  (0 <=? whale_prob (generate_buoy_reading 2 1 fine_draws))%float = true /\
  (whale_prob (generate_buoy_reading 2 1 fine_draws) <=? 1)%float = true.
Proof.
  apply (whale_prob_in_unit_interval sample_world 3 1).
  - intros step i. unfold sample_world, draws. destruct (Nat.even i); vm_compute; reflexivity.
  - vm_compute. right. left. reflexivity.
Defined.

(** The steps of C1 on one call of the generator. *)
Lemma scorer_bounds (d : Draws) :
  jitter_in_range d = true ->
  (0 <=? rule_sum d)%float = true /\
  (0 <=? clamped_prob d)%float = true /\ (clamped_prob d <=? 1)%float = true.
Proof.
  intros Hj. destruct (clamped_prob_range d Hj) as (Fc & Hc1 & Hc2).
  destruct (rule_sum_range d) as (Fp & Hp1 & Hp2).
  rewrite !leb_value by auto with b64.
  rewrite value_0. repeat split; apply Z.leb_le; lia.
Qed.

(** C4 as stated fails: in binary64 the four contributions add up to
    [0.9999999999999999], and with a jitter of [0.0] the clamped value
    is that number, not [1.0]. *)
Lemma all_rules_sum_below_one :
  jitter_in_range (all_rules_draws 0) = true /\
  rule_sum (all_rules_draws 0) = 0.9999999999999999%float /\
  rule_sum (all_rules_draws 0) <> 1%float /\
  clamped_prob (all_rules_draws 0) <> 1%float /\
  (clamped_prob (all_rules_draws 0) <? 1)%float = true.
Proof.
  split; [closed_float|]. split; [closed_float|].
  split; [|split; [|closed_float]];
    intros H; apply Leibniz.eqb_spec in H; vm_compute in H; discriminate.
Qed.

Lemma all_rules_sum_value :
  199 * 2 ^ 1074 < 200 * value 0.9999999999999999.
Proof. apply Z.ltb_lt. closed_float. Qed.

(** C4, amended. With sound level 90, temperature 10, depth 100 and wave
    height 1 all four rules fire; their sum is the double
    [0.9999999999999999]; the clamped value lies between that sum and
    [1.0]; and the stored, rounded whale probability is exactly [1.0]
    for every jitter in [0, 0.2]. *)
Theorem all_rules_fire_stored_one (d : Draws) (buoy_id : nat) (now : Z) :
  u_sound d = 90%float -> u_temp d = 10%float ->
  u_depth d = 100%float -> u_wave d = 1%float ->
  jitter_in_range d = true ->
  ((85 <? u_sound d) && ((8 <? u_temp d) && (u_temp d <? 16)) &&
   (80 <? u_depth d) && (u_wave d <? 2))%float = true /\
  rule_sum d = 0.9999999999999999%float /\
  (rule_sum d <=? clamped_prob d)%float = true /\
  (clamped_prob d <=? 1)%float = true /\
  whale_prob (generate_buoy_reading buoy_id now d) = 1%float.
Proof.
  intros Hs Ht Hd Hw Hj.
  assert (Hsum : rule_sum d = 0.9999999999999999%float).
  { unfold rule_sum. rewrite Hs, Ht, Hd, Hw. closed_float. }
  destruct (clamped_prob_range d Hj) as (Fc & Hc1 & Hc2).
  destruct (rule_sum_range d) as (Fp & _ & _).
  split; [rewrite Hs, Ht, Hd, Hw; closed_float|].
  split; [exact Hsum|].
  split; [rewrite leb_value by assumption; apply Z.leb_le; exact Hc1|].
  split; [rewrite leb_value by auto with b64; apply Z.leb_le; exact Hc2|].
  cbn [whale_prob generate_buoy_reading].
  rewrite Hsum in Hc1. pose proof all_rules_sum_value as Hv. pose proof value_1 as V1.
  assert (HG : 0 < 2 ^ 1074) by (apply pow2_pos; lia).
  assert (H1 : (2 * 100 - 1) * 2 ^ 1074 < 2 * 10 ^ Z.of_nat 2 * value (clamped_prob d)).
  { change (10 ^ Z.of_nat 2) with 100. lia. }
  assert (H2 : 2 * 10 ^ Z.of_nat 2 * value (clamped_prob d) < (2 * 100 + 1) * 2 ^ 1074).
  { change (10 ^ Z.of_nat 2) with 100. lia. }
  destruct (round_units (clamped_prob d) 2 100 100 Fc ltac:(lia) H1 H2) as (k & Hk & E).
  assert (k = 100%positive) by lia. subst k. rewrite E. closed_float.
Qed.

Lemma all_rules_fire_stored_one_witness :
  whale_prob (generate_buoy_reading 1 0 (all_rules_draws 0.2)) = 1%float.
Proof.
  apply (all_rules_fire_stored_one (all_rules_draws 0.2) 1 0);
    vm_compute; reflexivity.
Defined.

(** ** Ranges and rounding of the stored fields *)

Lemma temp_stored (x : float) :
  between 5 18 x = true ->
  between 5 18 (Py.round x 2) = true /\ is_rounded 2 (Py.round x 2).
Proof. apply (round_range 2 5 18 x 500 1800 temp_grid); try lia; closed_float. Qed.

Lemma depth_stored (x : float) :
  between 50 300 x = true ->
  between 50 300 (Py.round x 1) = true /\ is_rounded 1 (Py.round x 1).
Proof. apply (round_range 1 50 300 x 500 3000 depth_grid); try lia; closed_float. Qed.

Lemma sound_stored (x : float) :
  between 20 120 x = true ->
  between 20 120 (Py.round x 1) = true /\ is_rounded 1 (Py.round x 1).
Proof. apply (round_range 1 20 120 x 200 1200 sound_grid); try lia; closed_float. Qed.

Lemma wave_stored (x : float) :
  between 0.5 3.5 x = true ->
  between 0.5 3.5 (Py.round x 2) = true /\ is_rounded 2 (Py.round x 2).
Proof. apply (round_range 2 0.5 3.5 x 50 350 wave_grid); try lia; closed_float. Qed.

(** A base coordinate plus an offset from [-2, 2] stays within 2 of the
    base. *)
Lemma coordinate_range (base lo hi u : float) :
  finite base = true -> finite lo = true -> finite hi = true ->
  value base + value (-2) = value lo ->
  value base + value 2 = value hi ->
  between (-2) 2 u = true ->
  between lo hi (base + u) = true.
Proof.
  intros Fb Flo Fhi Hlo Hhi Hu.
  destruct (between_inv (-2) 2 u) as (Fu & Hu1 & Hu2); auto with b64.
  assert (Hsum : value lo <= value base + value u <= value hi) by lia.
  destruct (add_between base u lo hi Fb Fu Flo Fhi Hsum) as (Fs & Hs).
  unfold between. apply andb_true_iff.
  apply value_between; assumption.
Qed.

Lemma draws_in_range_inv (d : Draws) :
  draws_in_range d = true ->
  between (-2) 2 (u_lat d) = true /\ between (-2) 2 (u_lon d) = true /\
  between 5 18 (u_temp d) = true /\ between 50 300 (u_depth d) = true /\
  between 20 120 (u_sound d) = true /\ between 0.5 3.5 (u_wave d) = true /\
  jitter_in_range d = true.
Proof.
  unfold draws_in_range. intros H.
  do 6 (apply andb_true_iff in H as [H ?]). repeat split; assumption.
Qed.

(** C6. Every measurement of a generated reading lies in its generation
    range: latitude in [32, 36], longitude in [-122, -118], temperature
    in [5, 18], depth in [50, 300], sound level in [20, 120] and wave
    height in [0.5, 3.5]. *)
Theorem fields_in_generation_range (buoy_id : nat) (now : Z) (d : Draws) :
  draws_in_range d = true ->
  let r := generate_buoy_reading buoy_id now d in
  between 32 36 (lat r) = true /\
  between (-122) (-118) (lon r) = true /\
  between 5 18 (temp r) = true /\
  between 50 300 (depth r) = true /\
  between 20 120 (sound r) = true /\
  between 0.5 3.5 (wave r) = true.
Proof.
  intros H r. apply draws_in_range_inv in H as (Hlat & Hlon & Ht & Hd & Hs & Hw & _).
  subst r. cbn [generate_buoy_reading lat lon temp depth sound wave].
  split; [|split; [|split; [|split; [|split]]]].
  - apply coordinate_range; auto; closed_float.
  - apply coordinate_range; auto; closed_float.
  - apply temp_stored, Ht.
  - apply depth_stored, Hd.
  - apply sound_stored, Hs.
  - apply wave_stored, Hw.
Qed.

Lemma fields_in_generation_range_witness :
  let r := generate_buoy_reading 2 1 fine_draws in
  between 32 36 (lat r) = true /\
  between (-122) (-118) (lon r) = true /\
  between 5 18 (temp r) = true /\
  between 50 300 (depth r) = true /\
  between 20 120 (sound r) = true /\
  between 0.5 3.5 (wave r) = true.
Proof.
  apply (fields_in_generation_range 2 1 fine_draws). vm_compute. reflexivity.
Defined.

(** C5 as stated fails: latitude and longitude are stored as computed,
    with all their decimals, and the sound level is rounded to one
    decimal, not two. *)
Lemma coordinates_not_rounded :
  let r := generate_buoy_reading 2 1 fine_draws in
  draws_in_range fine_draws = true /\
  lat r = 34.125%float /\ ~ is_rounded 2 (lat r) /\
  lon r = (-121.0625)%float /\ ~ is_rounded 2 (lon r) /\
  sound r = 30.1%float /\ sound r <> Py.round (u_sound fine_draws) 2.
Proof.
  cbv zeta. unfold is_rounded.
  repeat split; try closed_float;
    intros H; apply Leibniz.eqb_spec in H; vm_compute in H; discriminate.
Qed.

(** C5, amended. Temperature, wave height and whale probability are
    rounded to two decimals, depth and sound level to one decimal, and
    each stored value is a fixed point of its rounding; latitude and
    longitude are the unrounded sums of base and offset. *)
Theorem stored_fields_rounding (buoy_id : nat) (now : Z) (d : Draws) :
  draws_in_range d = true ->
  let r := generate_buoy_reading buoy_id now d in
  (temp r = Py.round (u_temp d) 2 /\ is_rounded 2 (temp r)) /\
  (depth r = Py.round (u_depth d) 1 /\ is_rounded 1 (depth r)) /\
  (sound r = Py.round (u_sound d) 1 /\ is_rounded 1 (sound r)) /\
  (wave r = Py.round (u_wave d) 2 /\ is_rounded 2 (wave r)) /\
  (whale_prob r = Py.round (clamped_prob d) 2 /\ is_rounded 2 (whale_prob r)) /\
  lat r = (base_lat + u_lat d)%float /\
  lon r = (base_lon + u_lon d)%float.
Proof.
  intros H r. apply draws_in_range_inv in H as (_ & _ & Ht & Hd & Hs & Hw & Hj).
  subst r. cbn [generate_buoy_reading lat lon temp depth sound wave whale_prob].
  repeat split.
  - apply temp_stored, Ht.
  - apply depth_stored, Hd.
  - apply sound_stored, Hs.
  - apply wave_stored, Hw.
  - apply whale_prob_rounded, Hj.
Qed.

Lemma stored_fields_rounding_witness :
  let r := generate_buoy_reading 2 1 fine_draws in
  (temp r = Py.round (u_temp fine_draws) 2 /\ is_rounded 2 (temp r)) /\
  (depth r = Py.round (u_depth fine_draws) 1 /\ is_rounded 1 (depth r)) /\
  (sound r = Py.round (u_sound fine_draws) 1 /\ is_rounded 1 (sound r)) /\
  (wave r = Py.round (u_wave fine_draws) 2 /\ is_rounded 2 (wave r)) /\
  (whale_prob r = Py.round (clamped_prob fine_draws) 2 /\ is_rounded 2 (whale_prob r)) /\
  lat r = (base_lat + u_lat fine_draws)%float /\
  lon r = (base_lon + u_lon fine_draws)%float.
Proof.
  apply (stored_fields_rounding 2 1 fine_draws). vm_compute. reflexivity.
Defined.

(** ** The latest-per-buoy view *)

Lemma insert_by_time_perm (r : Reading) (df : DataFrame) :
  Permutation (insert_by_time r df) (r :: df).
Proof.
  induction df as [ | x rest IH]; cbn [insert_by_time].
  - apply Permutation_refl.
  - destruct (time r <=? time x).
    + apply Permutation_refl.
    + apply perm_trans with (x :: r :: rest).
      * apply perm_skip, IH.
      * apply perm_swap.
Qed.

Lemma sort_values_perm (df : DataFrame) : Permutation (sort_values df) df.
Proof.
  induction df as [ | r rest IH]; cbn [sort_values].
  - apply perm_nil.
  - apply perm_trans with (r :: sort_values rest).
    + apply insert_by_time_perm.
    + apply perm_skip, IH.
Qed.

Lemma sort_values_In (df : DataFrame) (r : Reading) :
  In r (sort_values df) <-> In r df.
Proof.
  split; apply Permutation_in.
  - apply sort_values_perm.
  - apply Permutation_sym, sort_values_perm.
Qed.

Lemma insert_by_time_sorted (r : Reading) (df : DataFrame) :
  StronglySorted time_le df -> StronglySorted time_le (insert_by_time r df).
Proof.
  induction 1 as [ | x rest Hs IH Hx]; cbn [insert_by_time].
  - repeat constructor.
  - destruct (Z.leb_spec (time r) (time x)) as [Hle | Hgt].
    + constructor; [constructor; assumption|].
      constructor; [exact Hle|].
      rewrite Forall_forall in *. intros y Hy. specialize (Hx y Hy).
      unfold time_le in *. lia.
    + constructor; [exact IH|].
      rewrite Forall_forall in *. intros y Hy.
      apply (Permutation_in _ (insert_by_time_perm r rest)) in Hy.
      destruct Hy as [<- | Hy]; [unfold time_le; lia | auto].
Qed.

Lemma sort_values_sorted (df : DataFrame) : StronglySorted time_le (sort_values df).
Proof.
  induction df as [ | r rest IH]; cbn [sort_values].
  - constructor.
  - apply insert_by_time_sorted, IH.
Qed.

(** A row later than every other row is sorted to the end. *)
Lemma insert_by_time_before_last (r x : Reading) (df : DataFrame) :
  time r < time x ->
  insert_by_time r (df ++ [x]) = insert_by_time r df ++ [x].
Proof.
  intros Hlt. induction df as [ | y rest IH]; cbn [insert_by_time app].
  - destruct (Z.leb_spec (time r) (time x)); [reflexivity | lia].
  - destruct (time r <=? time y); [reflexivity|]. rewrite IH. reflexivity.
Qed.

Lemma sort_values_last (df : DataFrame) (x : Reading) :
  (forall r, In r df -> time r < time x) ->
  sort_values (df ++ [x]) = sort_values df ++ [x].
Proof.
  induction df as [ | y rest IH]; intros Hx; cbn [sort_values app].
  - reflexivity.
  - rewrite IH by (intros r Hr; apply Hx; right; exact Hr).
    apply insert_by_time_before_last. apply Hx. left. reflexivity.
Qed.

Lemma same_buoy_existsb (r : Reading) (df : DataFrame) :
  existsb (fun r' => String.eqb (buoy r') (buoy r)) df = true <->
  In (buoy r) (map buoy df).
Proof.
  rewrite existsb_exists, in_map_iff. split.
  - intros (y & Hy & E). apply String.eqb_eq in E. eauto.
  - intros (y & E & Hy). exists y. split; [exact Hy | apply String.eqb_eq, E].
Qed.

Lemma groupby_tail1_In (df : DataFrame) (r : Reading) :
  In r (groupby_tail1 df) -> In r df.
Proof.
  induction df as [ | x rest IH]; cbn [groupby_tail1]; [tauto|].
  destruct (existsb _ rest); cbn [In]; intuition.
Qed.

Lemma groupby_tail1_NoDup (df : DataFrame) : NoDup (map buoy (groupby_tail1 df)).
Proof.
  induction df as [ | x rest IH]; cbn [groupby_tail1]; [constructor|].
  destruct (existsb _ rest) eqn:E; [exact IH|].
  cbn [map]. constructor; [|exact IH].
  intros Hin. apply in_map_iff in Hin as (y & Ey & Hy).
  apply groupby_tail1_In in Hy.
  assert (existsb (fun r' => String.eqb (buoy r') (buoy x)) rest = true).
  { apply same_buoy_existsb. apply in_map_iff. eauto. }
  congruence.
Qed.

Lemma groupby_tail1_covers (df : DataFrame) (r : Reading) :
  In r df -> exists v, In v (groupby_tail1 df) /\ buoy v = buoy r.
Proof.
  revert r. induction df as [ | x rest IH]; intros r; cbn [groupby_tail1 In]; [tauto|].
  intros [-> | Hr].
  - destruct (existsb _ rest) eqn:E.
    + apply same_buoy_existsb in E. apply in_map_iff in E as (y & Ey & Hy).
      destruct (IH y Hy) as (v & Hv & Ev). exists v. split; [exact Hv | congruence].
    + exists r. split; [left; reflexivity | reflexivity].
  - destruct (IH r Hr) as (v & Hv & Ev).
    exists v. split; [|exact Ev].
    destruct (existsb _ rest); [exact Hv | right; exact Hv].
Qed.

(** In a frame sorted by time, the row kept for a buoy is at least as
    recent as every row of that buoy. *)
Lemma groupby_tail1_latest (df : DataFrame) (v r : Reading) :
  StronglySorted time_le df ->
  In v (groupby_tail1 df) -> In r df -> buoy r = buoy v ->
  time r <= time v.
Proof.
  induction 1 as [ | x rest Hs IH Hx]; cbn [groupby_tail1 In]; [tauto|].
  rewrite Forall_forall in Hx.
  intros Hv Hr E.
  destruct (existsb _ rest) eqn:Ex.
  - destruct Hr as [<- | Hr]; [|auto].
    apply groupby_tail1_In in Hv. apply (Hx v Hv).
  - destruct Hv as [<- | Hv].
    + destruct Hr as [<- | Hr]; [lia|].
      exfalso.
      assert (existsb (fun r' => String.eqb (buoy r') (buoy x)) rest = true).
      { apply same_buoy_existsb. apply in_map_iff. eauto. }
      congruence.
    + destruct Hr as [<- | Hr]; [|auto].
      apply groupby_tail1_In in Hv. apply (Hx v Hv).
Qed.

Lemma groupby_tail1_last (df : DataFrame) (x : Reading) :
  exists kept, groupby_tail1 (df ++ [x]) = kept ++ [x].
Proof.
  induction df as [ | y rest (kept & IH)]; cbn [groupby_tail1 app].
  - exists []. reflexivity.
  - rewrite IH. destruct (existsb _ (rest ++ [x])).
    + exists kept. reflexivity.
    + exists (y :: kept). reflexivity.
Qed.

Lemma latest_per_buoy_In (df : DataFrame) (r : Reading) :
  In r (latest_per_buoy df) -> In r df.
Proof.
  unfold latest_per_buoy. intros H.
  apply sort_values_In, groupby_tail1_In, H.
Qed.

Lemma latest_per_buoy_covers (df : DataFrame) (r : Reading) :
  In r df -> exists v, In v (latest_per_buoy df) /\ buoy v = buoy r.
Proof.
  unfold latest_per_buoy. intros H.
  apply groupby_tail1_covers, sort_values_In, H.
Qed.

Lemma latest_per_buoy_nonempty (df : DataFrame) :
  df <> [] -> latest_per_buoy df <> [].
Proof.
  destruct df as [ | r rest]; [congruence|]. intros _ E.
  destruct (latest_per_buoy_covers (r :: rest) r (or_introl eq_refl)) as (v & Hv & _).
  rewrite E in Hv. exact Hv.
Qed.

Lemma NoDup_same_length {A : Type} (l1 l2 : list A) :
  NoDup l1 -> NoDup l2 -> (forall x, In x l1 <-> In x l2) ->
  length l1 = length l2.
Proof.
  intros N1 N2 H. apply Permutation_length.
  apply NoDup_Permutation; assumption.
Qed.

Lemma latest_per_buoy_count (df : DataFrame) :
  length (latest_per_buoy df) = nunique df.
Proof.
  unfold nunique. rewrite <- (length_map buoy).
  apply NoDup_same_length.
  - apply groupby_tail1_NoDup.
  - apply NoDup_nodup.
  - intros b. rewrite nodup_In, !in_map_iff. split.
    + intros (v & E & Hv). exists v. split; [exact E | apply latest_per_buoy_In, Hv].
    + intros (r & E & Hr). destruct (latest_per_buoy_covers df r Hr) as (v & Hv & Ev).
      exists v. split; [congruence | exact Hv].
Qed.

Lemma count_true_filter {A : Type} (f : A -> bool) (l : list A) :
  count_occ bool_dec (map f l) true = length (filter f l).
Proof.
  induction l as [ | x rest IH]; cbn [map filter count_occ]; [reflexivity|].
  destruct (f x); destruct (bool_dec _ true); cbn [length]; congruence.
Qed.

(** C3. A reading is flagged anomalous exactly when its sound level
    exceeds 100, or its temperature is below 6, or its wave height
    exceeds 3; the flag is a function of that triple alone, so readings
    that agree on it get the same flag, and each entry of the flag
    column is computed from its own row only. *)
Theorem anomaly_flag_pure :
  (forall r, anomaly r = true <->
     ((100 <? sound r)%float = true \/ (temp r <? 6)%float = true \/
      (3 <? wave r)%float = true)) /\
  (forall r, anomaly r = is_anomalous (sound r) (temp r) (wave r)) /\
  (forall r1 r2, sound r1 = sound r2 -> temp r1 = temp r2 -> wave r1 = wave r2 ->
     anomaly r1 = anomaly r2) /\
  (forall latest i,
     nth_error (anomaly_flags latest) i =
     option_map (fun r => is_anomalous (sound r) (temp r) (wave r)) (nth_error latest i)).
Proof.
  repeat split.
  - unfold anomaly, is_anomalous. intros H.
    apply orb_true_iff in H as [H | H]; [apply orb_true_iff in H|]; tauto.
  - unfold anomaly, is_anomalous. intros [H | [H | H]]; rewrite H;
      repeat (reflexivity || rewrite orb_true_r || rewrite orb_true_l).
  - intros r1 r2 Hs Ht Hw. unfold anomaly. rewrite Hs, Ht, Hw. reflexivity.
  - intros latest i. unfold anomaly_flags. apply nth_error_map.
Qed.

(** ** One iteration of the live loop *)

Lemma last_row_app (df : DataFrame) (x : Reading) : last_row (df ++ [x]) = Some x.
Proof.
  destruct df as [ | r rest]; cbn [last_row app]; [reflexivity|].
  f_equal. apply last_last.
Qed.

Lemma last_row_nonempty (df : DataFrame) : df <> [] -> exists r, last_row df = Some r.
Proof. destruct df; [congruence | intros _; eexists; reflexivity]. Qed.

Lemma iteration_run (w : World) (c : Controls) (step : nat) (s : SessionState) :
  let df := buoy_data s ++ new_rows w (num_buoys c) step in
  let flag := running s && negb (stop_request w step) in
  df <> [] ->
  exists latest_row,
    last_row (latest_per_buoy df) = Some latest_row /\
    iteration w c step s =
      (Returned flag, {| buoy_data := df; running := flag |},
       iteration_output c step df latest_row flag).
Proof.
  intros df flag Hdf.
  destruct (last_row_nonempty _ (latest_per_buoy_nonempty df Hdf)) as (latest_row & Hlast).
  exists latest_row. split; [exact Hlast|].
  unfold iteration, iteration_output.
  cbv [bind ret show extend get_buoy_data get_running clear_running column iloc_last raise].
  destruct (stop_request w step); cbn [buoy_data running]; fold df; rewrite Hlast;
    (destruct df as [ | r0 rest]; [congruence|]);
    destruct (filter is_alert (r0 :: rest)); unfold flag; cbn [app negb];
    rewrite ?andb_false_r, ?andb_true_r; destruct s; reflexivity.
Qed.

Lemma iteration_output_views (c : Controls) (step : nat) (df : DataFrame)
  (latest_row : Reading) (flag : bool) :
  let out := iteration_output c step df latest_row flag in
  complete_iteration out = true /\
  csv_snapshots out = [df] /\
  payloads out = [cloud_msg latest_row].
Proof.
  unfold iteration_output. destruct (filter is_alert df); repeat split; reflexivity.
Qed.

Lemma csv_snapshots_app (out1 out2 : list Event) :
  csv_snapshots (out1 ++ out2) = csv_snapshots out1 ++ csv_snapshots out2.
Proof. unfold csv_snapshots. apply flat_map_app. Qed.

(** ** The live loop *)

Lemma new_rows_length (w : World) (B step : nat) : length (new_rows w B step) = B.
Proof. unfold new_rows. rewrite length_map, length_seq. reflexivity. Qed.

Lemma new_rows_nonempty (w : World) (B step : nat) (log : list Reading) :
  (1 <= B)%nat -> log ++ new_rows w B step <> [].
Proof.
  intros HB E. apply (f_equal (@length Reading)) in E.
  rewrite length_app, new_rows_length in E. cbn in E. lia.
Qed.

Lemma rows_of_cons (w : World) (B step : nat) (steps : list nat) :
  rows_of w B (step :: steps) = new_rows w B step ++ rows_of w B steps.
Proof. reflexivity. Qed.

Lemma rows_of_length (w : World) (B : nat) (steps : list nat) :
  length (rows_of w B steps) = (length steps * B)%nat.
Proof.
  induction steps as [ | step rest IH]; [reflexivity|].
  rewrite rows_of_cons, length_app, new_rows_length, IH. cbn [length]. lia.
Qed.

Lemma log_after_length (w : World) (B T : nat) (log0 : list Reading) :
  length (log_after w B log0 T) = (length log0 + T * B)%nat.
Proof.
  unfold log_after. rewrite length_app, rows_of_length, length_seq. reflexivity.
Qed.

Lemma log_after_succ (w : World) (B T : nat) (log0 : list Reading) :
  log_after w B log0 (S T) = log_after w B log0 T ++ new_rows w B T.
Proof.
  unfold log_after, rows_of. rewrite seq_S, map_app, concat_app. cbn [map concat plus].
  rewrite app_nil_r, app_assoc. reflexivity.
Qed.

Lemma executed_bounds (w : World) (steps : list nat) :
  (executed w steps <= length steps)%nat /\
  (steps <> [] -> 1 <= executed w steps)%nat.
Proof.
  induction steps as [ | step rest [IH _]]; cbn [executed length].
  - split; [lia | congruence].
  - destruct (stop_request w step); split; intros; lia.
Qed.

(** The loop stops after the first iteration during which a stop was
    requested, and not before. *)
Lemma executed_seq (w : World) (a n : nat) :
  let T := executed w (seq a n) in
  (forall k, (S k < T)%nat -> stop_request w (a + k) = false) /\
  ((T < n)%nat -> stop_request w (a + T - 1) = true).
Proof.
  revert a. induction n as [ | n IH]; intros a; cbn [seq executed].
  - split; intros; lia.
  - destruct (stop_request w a) eqn:Ea.
    + split; [intros; lia|]. intros _. replace (a + 1 - 1)%nat with a by lia. exact Ea.
    + destruct (IH (S a)) as [H1 H2]. split.
      * intros [ | k] Hk.
        -- rewrite Nat.add_0_r. exact Ea.
        -- replace (a + S k)%nat with (S a + k)%nat by lia. apply H1. lia.
      * intros HT. pose proof (executed_bounds w (seq (S a) n)) as [_ Hpos].
        destruct n as [ | n']; [lia|].
        specialize (Hpos ltac:(discriminate)).
        replace (a + S (executed w (seq (S a) (S n'))) - 1)%nat
          with (S a + executed w (seq (S a) (S n')) - 1)%nat by lia.
        apply H2. lia.
Qed.


Lemma sliders_num_buoys (c : Controls) :
  sliders_in_range c = true -> (1 <= num_buoys c <= 5)%nat.
Proof.
  unfold sliders_in_range. intros H.
  do 3 (apply andb_true_iff in H as [H ?]).
  repeat match goal with E : (_ <=? _)%nat = true |- _ => apply Nat.leb_le in E end.
  lia.
Qed.

Lemma press_buttons_log (c : Controls) (s : SessionState) :
  buoy_data (press_buttons c s) = buoy_data s.
Proof. unfold press_buttons. destruct (start_pressed c), (stop_pressed c); reflexivity. Qed.

Lemma prelude_log (c : Controls) (stored : StoredSession) :
  buoy_data (prelude c stored) =
  match stored_buoy_data stored with Some log => log | None => [] end.
Proof. unfold prelude. rewrite press_buttons_log. reflexivity. Qed.

Lemma prelude_start (c : Controls) (stored : StoredSession) :
  start_pressed c = true -> stop_pressed c = false ->
  running (prelude c stored) = true.
Proof. unfold prelude, press_buttons. intros -> ->. reflexivity. Qed.

Lemma firstn_seq_from (a k n : nat) : (k <= n)%nat -> firstn k (seq a n) = seq a k.
Proof.
  revert a n. induction k as [ | k IH]; intros a n H; [reflexivity|].
  destruct n as [ | n]; [lia|]. cbn [seq firstn]. rewrite IH by lia. reflexivity.
Qed.

Lemma firstn_seq_le (k n : nat) : (k <= n)%nat -> firstn k (seq 0 n) = seq 0 k.
Proof. apply firstn_seq_from. Qed.

Section LiveLoop.

Variables (w : World) (c : Controls).
Hypothesis HB : (1 <= num_buoys c)%nat.

Lemma live_loop_run (steps : list nat) (s : SessionState) :
  running s = true ->
  let B := num_buoys c in
  let T := executed w steps in
  exists blocks flag,
    live_loop w c steps s =
      (Returned tt,
       {| buoy_data := buoy_data s ++ rows_of w B (firstn T steps); running := flag |},
       concat blocks) /\
    length blocks = T /\
    Forall (fun out => complete_iteration out = true) blocks /\
    csv_snapshots (concat blocks) =
      map (fun k => buoy_data s ++ rows_of w B (firstn k steps)) (seq 1 T).
Proof.
  intros Hrun B T. subst T. revert s Hrun.
  induction steps as [ | step rest IH]; intros s Hrun.
  - exists [], true. cbn [executed firstn live_loop concat length seq map csv_snapshots flat_map].
    unfold rows_of. cbn [map concat]. rewrite app_nil_r.
    repeat split; [|constructor]. unfold ret. destruct s; cbn in *; congruence.
  - cbn [live_loop executed].
    destruct (iteration_run w c step s (new_rows_nonempty w B step _ HB))
      as (latest_row & _ & Hit).
    fold B in Hit. rewrite Hrun in Hit. cbn [andb] in Hit.
    remember (buoy_data s ++ new_rows w B step) as df eqn:Hdf.
    destruct (iteration_output_views c step df latest_row (negb (stop_request w step)))
      as (Hc & Hcsv & _).
    unfold bind at 1. rewrite Hit.
    destruct (stop_request w step) eqn:Estop; cbn [negb] in *.
    + exists [iteration_output c step df latest_row false], false.
      cbn [firstn concat length seq map]. unfold ret.
      rewrite !app_nil_r, rows_of_cons. unfold rows_of at 1. cbn [map concat].
      rewrite !app_nil_r, Hcsv.
      split; [rewrite Hdf; reflexivity|]. split; [reflexivity|].
      split; [repeat constructor; exact Hc|]. rewrite Hdf. reflexivity.
    + destruct (IH {| buoy_data := df; running := true |} eq_refl)
        as (blocks & flag & Hloop & Hlen & Hall & Hsnap).
      rewrite Hloop. cbn [buoy_data] in *.
      exists (iteration_output c step df latest_row true :: blocks), flag.
      cbn [firstn concat length]. rewrite rows_of_cons, csv_snapshots_app, Hcsv, Hsnap.
      split; [rewrite Hdf, <- app_assoc; reflexivity|].
      split; [congruence|]. split; [constructor; assumption|].
      cbn [seq map app firstn].
      rewrite rows_of_cons. unfold rows_of at 2. cbn [map concat]. rewrite app_nil_r.
      rewrite Hdf at 1. f_equal. rewrite <- (seq_shift (executed w rest) 1), map_map.
      apply map_ext. intros k. cbn [firstn]. rewrite rows_of_cons.
      rewrite Hdf, <- app_assoc. reflexivity.
Qed.

Lemma run_when_running (stored : StoredSession) :
  running (prelude c stored) = true ->
  let B := num_buoys c in
  let T := executed w (seq 0 50) in
  let log0 := buoy_data (prelude c stored) in
  exists blocks flag,
    run_iot_buoy w c stored =
      (Returned tt, {| buoy_data := log_after w B log0 T; running := flag |},
       concat blocks) /\
    length blocks = T /\ (1 <= T <= 50)%nat /\
    Forall (fun out => complete_iteration out = true) blocks /\
    csv_snapshots (concat blocks) = map (log_after w B log0) (seq 1 T).
Proof.
  intros Hrun B T log0.
  pose proof (executed_bounds w (seq 0 50)) as [HT1 HT2].
  rewrite length_seq in HT1. specialize (HT2 ltac:(discriminate)). fold T in HT1, HT2.
  destruct (live_loop_run (seq 0 50) (prelude c stored) Hrun)
    as (blocks & flag & Hloop & Hlen & Hall & Hsnap).
  fold B T log0 in Hloop, Hlen, Hsnap.
  exists blocks, flag. unfold run_iot_buoy. rewrite Hrun, Hloop.
  unfold log_after. rewrite firstn_seq_le by exact HT1.
  repeat split; auto; try lia.
  rewrite Hsnap. apply map_ext_in. intros k Hk. apply in_seq in Hk.
  rewrite firstn_seq_le by lia. reflexivity.
Qed.

End LiveLoop.

(** ** One run of the page *)

(** C7. A run that starts from an empty log with [B] buoys ends, after
    its [T] completed ticks, with a log of exactly [T * B] readings;
    the log seen at the end of tick [k] is the one of tick [k - 1] with
    the [B] readings of tick [k] appended, so it never shrinks and no
    stored reading changes. *)
Theorem log_length_after_ticks (w : World) (c : Controls) (stored : StoredSession) :
  sliders_in_range c = true ->
  running (prelude c stored) = true ->
  buoy_data (prelude c stored) = [] ->
  let B := num_buoys c in
  let T := executed w (seq 0 50) in
  exists s' out,
    run_iot_buoy w c stored = (Returned tt, s', out) /\
    (1 <= T <= 50)%nat /\
    buoy_data s' = log_after w B [] T /\
    length (buoy_data s') = (T * B)%nat /\
    csv_snapshots out = map (log_after w B []) (seq 1 T) /\
    (forall k, length (log_after w B [] k) = (k * B)%nat /\
               log_after w B [] (S k) = log_after w B [] k ++ new_rows w B k).
Proof.
  intros Hs Hrun Hlog B T.
  destruct (run_when_running w c (proj1 (sliders_num_buoys c Hs)) stored Hrun)
    as (blocks & flag & Hr & Hlen & HT & _ & Hsnap).
  fold B T in Hr, Hlen, HT, Hsnap. rewrite Hlog in Hr, Hsnap.
  eexists. eexists. split; [exact Hr|]. cbn [buoy_data].
  split; [exact HT|]. split; [reflexivity|].
  split; [rewrite log_after_length; reflexivity|].
  split; [exact Hsnap|].
  intros k. split; [rewrite log_after_length; reflexivity | apply log_after_succ].
Qed.

Lemma log_length_after_ticks_witness :
  exists s' out,
    run_iot_buoy sample_world sample_controls fresh_session = (Returned tt, s', out) /\
    length (buoy_data s') = (executed sample_world (seq 0 50) * 3)%nat.
Proof.
  destruct (log_length_after_ticks sample_world sample_controls fresh_session
              eq_refl eq_refl eq_refl) as (s' & out & H1 & _ & _ & H2 & _).
  exists s', out. split; [exact H1 | exact H2].
Defined.

(** C9. A run always returns: the live loop makes at most 50 passes,
    each pass runs to its end (metrics, charts, the advanced layer with
    the payload, the downloads and the sleep) before the flag is read,
    and the loop stops only after a pass during which a stop was
    requested, or after the 50th. *)
Theorem live_loop_bounded_uninterrupted
  (w : World) (c : Controls) (stored : StoredSession) :
  sliders_in_range c = true ->
  exists s' out,
    run_iot_buoy w c stored = (Returned tt, s', out) /\
    (running (prelude c stored) = false -> out = [Warning] /\ s' = prelude c stored) /\
    (running (prelude c stored) = true ->
       let T := executed w (seq 0 50) in
       exists blocks,
         out = concat blocks /\ length blocks = T /\ (1 <= T <= 50)%nat /\
         Forall (fun out => complete_iteration out = true) blocks /\
         (forall k, (S k < T)%nat -> stop_request w k = false) /\
         ((T < 50)%nat -> stop_request w (T - 1) = true)).
Proof.
  intros Hs. destruct (running (prelude c stored)) eqn:Hrun.
  - destruct (run_when_running w c (proj1 (sliders_num_buoys c Hs)) stored Hrun)
      as (blocks & flag & Hr & Hlen & HT & Hall & _).
    eexists. eexists. split; [exact Hr|]. split; [discriminate|].
    intros _ T. exists blocks.
    destruct (executed_seq w 0 50) as [H1 H2].
    repeat split; auto; lia.
  - unfold run_iot_buoy. rewrite Hrun.
    eexists. eexists. split; [reflexivity|]. split; [auto | discriminate].
Qed.

Lemma live_loop_bounded_uninterrupted_witness :
  exists s' out,
    run_iot_buoy sample_world sample_controls fresh_session = (Returned tt, s', out).
Proof.
  destruct (live_loop_bounded_uninterrupted sample_world sample_controls fresh_session
              eq_refl) as (s' & out & H & _).
  exists s', out. exact H.
Defined.

(** C10. Pressing Start changes the running flag only: the log is set
    to empty only when the session has none, a run started on a stored
    session continues its log, and after two runs the log holds the
    earlier readings followed by those of both runs. *)
Theorem restart_keeps_log
  (w1 w2 : World) (c1 c2 : Controls) (stored : StoredSession) :
  sliders_in_range c1 = true -> sliders_in_range c2 = true ->
  start_pressed c1 = true -> stop_pressed c1 = false ->
  start_pressed c2 = true -> stop_pressed c2 = false ->
  let log0 := match stored_buoy_data stored with Some log => log | None => [] end in
  let T1 := executed w1 (seq 0 50) in
  let T2 := executed w2 (seq 0 50) in
  exists s1 out1 s2 out2,
    run_iot_buoy w1 c1 stored = (Returned tt, s1, out1) /\
    run_iot_buoy w2 c2 (store s1) = (Returned tt, s2, out2) /\
    prelude c2 (store s1) = {| buoy_data := buoy_data s1; running := true |} /\
    buoy_data s1 = log0 ++ rows_of w1 (num_buoys c1) (seq 0 T1) /\
    buoy_data s2 = buoy_data s1 ++ rows_of w2 (num_buoys c2) (seq 0 T2) /\
    length (buoy_data s2) =
      (length log0 + T1 * num_buoys c1 + T2 * num_buoys c2)%nat.
Proof.
  intros Hs1 Hs2 Ha1 Hb1 Ha2 Hb2 log0 T1 T2.
  destruct (run_when_running w1 c1 (proj1 (sliders_num_buoys c1 Hs1)) stored
              (prelude_start c1 stored Ha1 Hb1))
    as (blocks1 & flag1 & Hr1 & _ & _ & _ & _).
  rewrite prelude_log in Hr1. fold log0 T1 in Hr1.
  set (s1 := {| buoy_data := log_after w1 (num_buoys c1) log0 T1; running := flag1 |}) in *.
  destruct (run_when_running w2 c2 (proj1 (sliders_num_buoys c2 Hs2)) (store s1)
              (prelude_start c2 (store s1) Ha2 Hb2))
    as (blocks2 & flag2 & Hr2 & _ & _ & _ & _).
  rewrite prelude_log in Hr2. fold T2 in Hr2. cbn [store stored_buoy_data buoy_data s1] in Hr2.
  exists s1, (concat blocks1). eexists. eexists.
  split; [exact Hr1|]. split; [exact Hr2|]. cbn [buoy_data s1].
  split; [unfold prelude, press_buttons; rewrite Ha2, Hb2; reflexivity|].
  split; [reflexivity|]. split; [reflexivity|].
  rewrite !log_after_length. reflexivity.
Qed.

Lemma restart_keeps_log_witness :
  exists s1 out1 s2 out2,
    run_iot_buoy sample_world sample_controls fresh_session = (Returned tt, s1, out1) /\
    run_iot_buoy sample_world sample_controls (store s1) = (Returned tt, s2, out2) /\
    length (buoy_data s2) = 12%nat.
Proof.
  destruct (restart_keeps_log sample_world sample_world sample_controls sample_controls
              fresh_session eq_refl eq_refl eq_refl eq_refl eq_refl eq_refl)
    as (s1 & out1 & s2 & out2 & H1 & H2 & _ & _ & _ & H3).
  exists s1, out1, s2, out2. repeat split; assumption.
Defined.

(** The two frame facts behind C10, for any buttons and any session. *)
Lemma buttons_and_init_keep_log (c : Controls) (stored : StoredSession) :
  (forall s, buoy_data (press_buttons c s) = buoy_data s) /\
  buoy_data (session_init stored) =
    match stored_buoy_data stored with Some log => log | None => [] end.
Proof. split; [apply press_buttons_log | reflexivity]. Qed.

(** ** The cloud payload *)

Lemma new_rows_last (w : World) (B step : nat) :
  new_rows w (S B) step =
  new_rows w B step ++ [generate_buoy_reading (S B) (now w step B) (draws w step B)].
Proof.
  unfold new_rows. rewrite seq_S, map_app. cbn [map plus].
  replace (B + 1)%nat with (S B) by lia. reflexivity.
Qed.

Lemma latest_per_buoy_last (df : DataFrame) (x : Reading) :
  (forall r, In r df -> time r < time x) ->
  last_row (latest_per_buoy (df ++ [x])) = Some x.
Proof.
  intros H. unfold latest_per_buoy. rewrite sort_values_last by exact H.
  destruct (groupby_tail1_last (sort_values df) x) as (kept & ->).
  apply last_row_app.
Qed.

(** C8. Each pass emits one cloud payload. Whenever the reading
    generated last in the pass, the one of the last buoy, carries a
    timestamp later than every other row of the log, the payload is
    built from that reading; its alert field tells whether that
    reading's whale probability exceeds 0.7. *)
Theorem payload_from_last_buoy (w : World) (c : Controls) (step : nat) (s : SessionState) :
  (1 <= num_buoys c)%nat ->
  (forall r, In r (buoy_data s ++ new_rows w (num_buoys c - 1) step) ->
             time r < now w step (num_buoys c - 1)) ->
  let B := num_buoys c in
  let r_last := generate_buoy_reading B (now w step (B - 1)) (draws w step (B - 1)) in
  exists flag s' out,
    iteration w c step s = (Returned flag, s', out) /\
    payloads out = [cloud_msg r_last] /\
    device_id (cloud_msg r_last) = String.append "B-" (Py.str B) /\
    ai_whale_probability (cloud_msg r_last) = whale_prob r_last /\
    ai_alert (cloud_msg r_last) = (0.7 <? whale_prob r_last)%float.
Proof.
  intros HB Htime B r_last.
  destruct (iteration_run w c step s (new_rows_nonempty w B step _ HB))
    as (latest_row & Hlast & Hit).
  assert (E : latest_row = r_last).
  { subst r_last B. destruct (num_buoys c) as [ | B']; [lia|].
    rewrite new_rows_last, app_assoc in Hlast.
    replace (S B' - 1)%nat with B' in * by lia.
    rewrite latest_per_buoy_last in Hlast by exact Htime.
    congruence. }
  subst latest_row.
  eexists. eexists. eexists. split; [exact Hit|].
  split; [apply iteration_output_views|].
  repeat split.
Qed.

Lemma payload_from_last_buoy_witness :
  exists flag s' out,
    iteration sample_world sample_controls 0 {| buoy_data := []; running := true |}
      = (Returned flag, s', out) /\
    payloads out =
      [cloud_msg (generate_buoy_reading 3 (now sample_world 0 2) (draws sample_world 0 2))].
Proof.
  destruct (payload_from_last_buoy sample_world sample_controls 0
              {| buoy_data := []; running := true |})
    as (flag & s' & out & H1 & H2 & _).
  - cbn. lia.
  - cbn [sample_controls num_buoys buoy_data app Nat.sub].
    intros r Hr. apply new_rows_In in Hr as (i & Hi & ->).
    cbn [time generate_buoy_reading sample_world now]. lia.
  - exists flag, s', out. split; assumption.
Defined.

(** C8 as stated fails when the clock does not advance: with three
    buoys and a clock that steps back from one reading of the pass to
    the next, the single payload of the pass is the one of buoy B-1,
    the reading with the latest timestamp, and not the one of the
    buoy processed last. *)
Lemma payload_not_from_last_buoy :
  exists flag s' out,
    iteration receding_clock_world sample_controls 0
      {| buoy_data := []; running := true |} = (Returned flag, s', out) /\
    num_buoys sample_controls = 3%nat /\
    map device_id (payloads out) = ["B-1"%string] /\
    payloads out <>
      [cloud_msg (generate_buoy_reading 3 (now receding_clock_world 0 2)
                                          (draws receding_clock_world 0 2))].
Proof.
  do 3 eexists. split; [vm_compute; reflexivity|].
  split; [reflexivity|]. split; [vm_compute; reflexivity|].
  intros E. apply (f_equal (map device_id)) in E. vm_compute in E. discriminate E.
Qed.

(** ** The health metric of a pass *)

Lemma nunique_perm (l1 l2 : DataFrame) :
  Permutation l1 l2 -> nunique l1 = nunique l2.
Proof.
  intros P. unfold nunique. apply NoDup_same_length; try apply NoDup_nodup.
  intros b. rewrite !nodup_In. split; apply Permutation_in.
  - apply Permutation_map, P.
  - apply Permutation_map, Permutation_sym, P.
Qed.

Lemma groupby_tail1_count (df : DataFrame) :
  length (groupby_tail1 df) = nunique df.
Proof.
  unfold nunique. rewrite <- (length_map buoy).
  apply NoDup_same_length.
  - apply groupby_tail1_NoDup.
  - apply NoDup_nodup.
  - intros b. rewrite nodup_In, !in_map_iff. split.
    + intros (v & E & Hv). exists v. split; [exact E | apply groupby_tail1_In, Hv].
    + intros (r & E & Hr). destruct (groupby_tail1_covers df r Hr) as (v & Hv & Ev).
      exists v. split; [congruence | exact Hv].
Qed.

(** Whatever the order of rows with equal timestamps, the rows kept are
    the same when no buoy has two rows with the same timestamp. *)
Lemma latest_view_incl (df s1 s2 : DataFrame) (v : Reading) :
  Permutation s1 df -> Permutation s2 df ->
  StronglySorted time_le s1 -> StronglySorted time_le s2 ->
  no_buoy_ties df ->
  In v (groupby_tail1 s1) -> In v (groupby_tail1 s2).
Proof.
  intros P1 P2 S1 S2 Hties Hv.
  assert (Hv1 : In v s1) by apply groupby_tail1_In, Hv.
  assert (Hvd : In v df) by apply (Permutation_in _ P1 Hv1).
  assert (Hv2 : In v s2) by apply (Permutation_in _ (Permutation_sym P2) Hvd).
  destruct (groupby_tail1_covers s2 v Hv2) as (v' & Hv' & Eb).
  assert (Hv'2 : In v' s2) by apply groupby_tail1_In, Hv'.
  assert (Hv'd : In v' df) by apply (Permutation_in _ P2 Hv'2).
  assert (Hv'1 : In v' s1) by apply (Permutation_in _ (Permutation_sym P1) Hv'd).
  pose proof (groupby_tail1_latest s1 v v' S1 Hv Hv'1 Eb) as Hle1.
  pose proof (groupby_tail1_latest s2 v' v S2 Hv' Hv2 (eq_sym Eb)) as Hle2.
  rewrite <- (Hties v' v Hv'd Hvd Eb ltac:(lia)). exact Hv'.
Qed.

Lemma latest_views_agree (df s1 s2 : DataFrame) :
  Permutation s1 df -> Permutation s2 df ->
  StronglySorted time_le s1 -> StronglySorted time_le s2 ->
  no_buoy_ties df ->
  Permutation (groupby_tail1 s1) (groupby_tail1 s2).
Proof.
  intros P1 P2 S1 S2 Hties.
  apply NoDup_Permutation.
  - apply (NoDup_map_inv buoy), groupby_tail1_NoDup.
  - apply (NoDup_map_inv buoy), groupby_tail1_NoDup.
  - intros v. split; apply (latest_view_incl df); assumption.
Qed.

Lemma filter_length_perm {A : Type} (f : A -> bool) (l1 l2 : list A) :
  Permutation l1 l2 -> length (filter f l1) = length (filter f l2).
Proof.
  induction 1 as [ | x l1 l2 P IH | x y l | l1 l2 l3 P1 IH1 P2 IH2]; cbn [filter].
  - reflexivity.
  - destruct (f x); cbn [length]; congruence.
  - destruct (f x), (f y); reflexivity.
  - congruence.
Qed.

Lemma health_score_formula (latest : DataFrame) :
  health_score latest =
  (100 - (Py.float_of_nat (length (filter anomaly latest)) /
          Py.float_of_nat (length latest)) * 100)%float.
Proof.
  unfold health_score, series_mean, anomaly_flags.
  rewrite count_true_filter, length_map. reflexivity.
Qed.

Lemma health_score_perm (l1 l2 : DataFrame) :
  Permutation l1 l2 -> health_score l1 = health_score l2.
Proof.
  intros P. rewrite !health_score_formula.
  rewrite (filter_length_perm anomaly l1 l2 P), (Permutation_length P). reflexivity.
Qed.

Lemma iteration_output_health (c : Controls) (step : nat) (df : DataFrame)
  (latest_row : Reading) (flag : bool) :
  health_metrics (iteration_output c step df latest_row flag) =
  [health_score (latest_per_buoy df)].
Proof. unfold iteration_output. destruct (filter is_alert df); reflexivity. Qed.

(** C2. Every pass of the loop body shows one health metric, and it is
    the score of the latest-per-buoy view of the whole log, not of the
    log itself. The view is taken from the log in time order; for
    every time order of the log (pandas does not fix the order of rows
    with equal timestamps) it has exactly one row for every buoy of
    the log, a row at least as recent as every row of its buoy, and
    with [N] rows of which [K] are flagged its score is
    [100 - (K / N) * 100]. When no buoy has two rows with the same
    timestamp the score does not depend on the order chosen. *)
Theorem health_score_latest_view
  (w : World) (c : Controls) (step : nat) (s : SessionState) :
  (1 <= num_buoys c)%nat ->
  let df := buoy_data s ++ new_rows w (num_buoys c) step in
  exists flag s' out,
    iteration w c step s = (Returned flag, s', out) /\
    health_metrics out = [health_score (latest_per_buoy df)] /\
    latest_per_buoy df = groupby_tail1 (sort_values df) /\
    Permutation (sort_values df) df /\
    StronglySorted time_le (sort_values df) /\
    forall sorted,
      Permutation sorted df -> StronglySorted time_le sorted ->
      let latest := groupby_tail1 sorted in
      let N := length latest in
      let K := length (filter anomaly latest) in
      health_score latest =
        (100 - (Py.float_of_nat K / Py.float_of_nat N) * 100)%float /\
      NoDup (map buoy latest) /\
      N = nunique df /\
      (forall v, In v latest ->
         In v df /\ forall r, In r df -> buoy r = buoy v -> time r <= time v) /\
      (forall r, In r df -> exists v, In v latest /\ buoy v = buoy r) /\
      (no_buoy_ties df -> health_score latest = health_score (latest_per_buoy df)).
Proof.
  intros HB df.
  destruct (iteration_run w c step s (new_rows_nonempty w (num_buoys c) step _ HB))
    as (latest_row & _ & Hit).
  fold df in Hit.
  do 3 eexists. split; [exact Hit|].
  split; [apply iteration_output_health|]. split; [reflexivity|].
  split; [apply sort_values_perm|]. split; [apply sort_values_sorted|].
  intros sorted P S. cbv zeta.
  split; [apply health_score_formula|].
  split; [apply groupby_tail1_NoDup|].
  split; [rewrite groupby_tail1_count; apply nunique_perm, P|].
  split; [|split].
  - intros v Hv.
    assert (Hvs : In v sorted) by apply groupby_tail1_In, Hv.
    split; [apply (Permutation_in _ P Hvs)|].
    intros r Hr E.
    apply (groupby_tail1_latest sorted v r S Hv); [|exact E].
    apply (Permutation_in _ (Permutation_sym P) Hr).
  - intros r Hr. apply groupby_tail1_covers.
    apply (Permutation_in _ (Permutation_sym P) Hr).
  - intros Hties. apply health_score_perm. unfold latest_per_buoy.
    apply (latest_views_agree df); auto using sort_values_perm, sort_values_sorted.
Qed.

Lemma health_score_latest_view_witness :
  exists flag s' out,
    iteration sample_world sample_controls 0 {| buoy_data := []; running := true |}
      = (Returned flag, s', out) /\
    health_metrics out = [health_score (latest_per_buoy (new_rows sample_world 3 0))].
Proof.
  destruct (health_score_latest_view sample_world sample_controls 0
              {| buoy_data := []; running := true |})
    as (flag & s' & out & H1 & H2 & _).
  - cbn. lia.
  - exists flag, s', out. split; [exact H1 | exact H2].
Defined.

(** The two scores differ: on a log where a buoy was anomalous and has
    recovered, the latest view gives 100 and the whole log would give
    50. *)
Example health_of_view_not_of_log :
  health_score (latest_per_buoy recovered_buoy_log) = 100%float /\
  health_score recovered_buoy_log = 50%float.
Proof. split; vm_compute; reflexivity. Qed.

(* ================================================================= *)
(** * Further properties of the page *)

(** ** Buoy labels *)

Lemma to_uint_not_nil (n : nat) : Nat.to_uint n <> Decimal.Nil.
Proof.
  intros E. pose proof (Unsigned.of_to n) as H. rewrite E in H.
  cbn in H. subst n. cbn in E. discriminate.
Qed.

Lemma str_inj (n m : nat) : Py.str n = Py.str m -> n = m.
Proof.
  unfold Py.str. intros E.
  apply Unsigned.to_uint_inj.
  pose proof (NilZero.usu _ (to_uint_not_nil n)) as Hn.
  pose proof (NilZero.usu _ (to_uint_not_nil m)) as Hm.
  rewrite E in Hn. congruence.
Qed.

Lemma buoy_label_inj (n m : nat) : label_of_buoy n = label_of_buoy m -> n = m.
Proof.
  unfold label_of_buoy. cbn [String.append]. intros E.
  apply str_inj. congruence.
Qed.

Lemma new_rows_labels (w : World) (B step : nat) :
  map buoy (new_rows w B step) = map label_of_buoy (seq 1 B).
Proof.
  unfold new_rows. rewrite map_map, <- seq_shift, map_map.
  apply map_ext. intros i. cbn [buoy generate_buoy_reading].
  replace (i + 1)%nat with (S i) by lia. reflexivity.
Qed.

Lemma buoy_labels_NoDup (a B : nat) : NoDup (map label_of_buoy (seq a B)).
Proof.
  revert a. induction B as [ | B IH]; intros a; cbn [seq map]; constructor.
  - intros Hin. apply in_map_iff in Hin as (m & E & Hm).
    apply buoy_label_inj in E. apply in_seq in Hm. lia.
  - apply IH.
Qed.

(** ** How the latest view follows the log *)

Lemma insert_by_time_front (r : Reading) (df : DataFrame) :
  Forall (time_lt r) df -> insert_by_time r df = r :: df.
Proof.
  destruct df as [ | x rest]; [reflexivity|]. intros H.
  apply Forall_inv in H. unfold time_lt in H. cbn [insert_by_time].
  destruct (Z.leb_spec (time r) (time x)); [reflexivity | lia].
Qed.

Lemma sort_values_sorted_id (df : DataFrame) :
  StronglySorted time_lt df -> sort_values df = df.
Proof.
  induction 1 as [ | r rest Hs IH Hr]; cbn [sort_values]; [reflexivity|].
  rewrite IH. apply insert_by_time_front, Hr.
Qed.

Lemma sorted_app_inv (l1 l2 : DataFrame) :
  StronglySorted time_lt (l1 ++ l2) ->
  StronglySorted time_lt l1 /\ StronglySorted time_lt l2.
Proof.
  induction l1 as [ | x l1 IH]; cbn [app]; intros H.
  - split; [constructor | exact H].
  - apply StronglySorted_inv in H as [Hs Hx]. destruct (IH Hs) as [H1 H2].
    split; [|exact H2]. constructor; [exact H1|].
    apply Forall_app in Hx. tauto.
Qed.

Lemma groupby_tail1_app (old rows : DataFrame) :
  groupby_tail1 (old ++ rows) =
  filter (fun v => negb (has_reading_of v rows)) (groupby_tail1 old)
  ++ groupby_tail1 rows.
Proof.
  induction old as [ | x rest IH]; cbn [app groupby_tail1 filter]; [reflexivity|].
  rewrite existsb_app.
  destruct (existsb (fun r' => String.eqb (buoy r') (buoy x)) rest) eqn:Er; cbn [orb].
  - exact IH.
  - cbn [filter]. unfold has_reading_of at 1.
    destruct (existsb (fun r => String.eqb (buoy r) (buoy x)) rows); cbn [negb app].
    + exact IH.
    + rewrite IH. reflexivity.
Qed.

(** X1. With a clock that advances between any two readings, new rows
    update the latest view buoy by buoy: a buoy with a new reading shows
    its newest one, and a buoy without keeps the row it had, after which
    the rows of the buoys just read follow. *)
Theorem latest_view_update (log rows : DataFrame) :
  StronglySorted time_lt (log ++ rows) ->
  latest_per_buoy (log ++ rows) =
  filter (fun v => negb (has_reading_of v rows)) (latest_per_buoy log)
  ++ latest_per_buoy rows.
Proof.
  intros H. destruct (sorted_app_inv _ _ H) as [H1 H2].
  unfold latest_per_buoy. rewrite !sort_values_sorted_id by assumption.
  apply groupby_tail1_app.
Qed.

Lemma groupby_tail1_NoDup_id (rows : DataFrame) :
  NoDup (map buoy rows) -> groupby_tail1 rows = rows.
Proof.
  induction rows as [ | r rest IH]; cbn [map groupby_tail1]; [reflexivity|].
  intros H. apply NoDup_cons_iff in H as [Hr Hrest].
  destruct (existsb _ rest) eqn:E.
  - apply same_buoy_existsb in E. contradiction.
  - rewrite IH by exact Hrest. reflexivity.
Qed.

Lemma has_reading_of_label (v : Reading) (rows : DataFrame) :
  In (buoy v) (map buoy rows) -> has_reading_of v rows = true.
Proof. intros H. unfold has_reading_of. apply same_buoy_existsb, H. Qed.

Lemma filter_none {A : Type} (f : A -> bool) (l : list A) :
  (forall x, In x l -> f x = false) -> filter f l = [].
Proof.
  induction l as [ | x rest IH]; intros H; cbn [filter]; [reflexivity|].
  rewrite (H x (or_introl eq_refl)). apply IH. intros y Hy. apply H. right. exact Hy.
Qed.

Lemma log_after_labels (w : World) (B T : nat) (r : Reading) :
  In r (log_after w B [] T) -> In (buoy r) (map label_of_buoy (seq 1 B)).
Proof.
  intros H. apply log_after_In in H as [[] | (step & i & _ & Hi & ->)].
  cbn [buoy generate_buoy_reading]. apply in_map_iff.
  exists (i + 1)%nat. split; [reflexivity | apply in_seq; lia].
Qed.

(** X2. In a run that starts from an empty log, with a clock that
    advances between any two readings, the latest view after a tick is
    exactly the list of readings generated in that tick, one per
    configured buoy: the map, the anomaly flags and the health score
    are computed on the current tick alone, and the active-buoy count
    is the number of buoys. *)
Theorem fresh_run_latest_is_current_tick (w : World) (B T : nat) :
  StronglySorted time_lt (log_after w B [] (S T)) ->
  latest_per_buoy (log_after w B [] (S T)) = new_rows w B T /\
  nunique (log_after w B [] (S T)) = B.
Proof.
  intros H.
  assert (E : latest_per_buoy (log_after w B [] (S T)) = new_rows w B T).
  { rewrite log_after_succ in *.
    destruct (sorted_app_inv _ _ H) as [H1 H2].
    unfold latest_per_buoy. rewrite sort_values_sorted_id by exact H.
    rewrite groupby_tail1_app.
    rewrite filter_none.
    - apply groupby_tail1_NoDup_id. rewrite new_rows_labels. apply buoy_labels_NoDup.
    - intros v Hv. apply groupby_tail1_In in Hv.
      rewrite has_reading_of_label; [reflexivity|].
      rewrite new_rows_labels. apply (log_after_labels w B T v Hv). }
  split; [exact E|].
  rewrite <- latest_per_buoy_count, E. apply new_rows_length.
Qed.

Lemma fresh_run_latest_is_current_tick_witness :
  latest_per_buoy (log_after ticking_world 3 [] 2) = new_rows ticking_world 3 1 /\
  nunique (log_after ticking_world 3 [] 2) = 3%nat.
Proof.
  apply (fresh_run_latest_is_current_tick ticking_world 3 1).
  unfold log_after, rows_of, new_rows, time_lt. cbn [seq map concat app].
  repeat (constructor; [|repeat (constructor; [cbn; lia|]); constructor]).
  constructor.
Defined.

Lemma latest_view_update_witness :
  latest_per_buoy (new_rows ticking_world 3 0 ++ new_rows ticking_world 2 1) =
  filter (fun v => negb (has_reading_of v (new_rows ticking_world 2 1)))
         (latest_per_buoy (new_rows ticking_world 3 0))
  ++ latest_per_buoy (new_rows ticking_world 2 1).
Proof.
  apply (latest_view_update (new_rows ticking_world 3 0) (new_rows ticking_world 2 1)).
  unfold new_rows, time_lt. cbn [seq map app].
  repeat (constructor; [|repeat (constructor; [cbn; lia|]); constructor]).
  constructor.
Defined.

(** ** What one pass displays *)

Lemma nunique_app_le (log rows : DataFrame) :
  (nunique log <= nunique (log ++ rows))%nat.
Proof.
  unfold nunique. apply NoDup_incl_length; [apply NoDup_nodup|].
  intros b Hb. apply nodup_In in Hb. apply nodup_In.
  rewrite map_app. apply in_or_app. left. exact Hb.
Qed.

Lemma nunique_le_length (df : DataFrame) : (nunique df <= length df)%nat.
Proof.
  unfold nunique. rewrite <- (length_map buoy df).
  apply NoDup_incl_length; [apply NoDup_nodup|].
  intros b Hb. apply nodup_In in Hb. exact Hb.
Qed.

Lemma iteration_output_metrics (c : Controls) (step : nat) (df : DataFrame)
  (latest_row : Reading) (flag : bool) :
  metrics (iteration_output c step df latest_row flag) =
  [("Total Signals"%string, length df);
   ("Active Buoys"%string, nunique df);
   ("Whale Alerts"%string, length (filter is_alert df))].
Proof. unfold iteration_output. destruct (filter is_alert df); reflexivity. Qed.

(** X3. Each pass shows three metrics computed on the whole log: the
    signal count grows by exactly the number of buoys, and neither the
    number of active buoys nor the number of whale alerts ever goes
    down; both stay within the signal count. *)
Theorem metrics_grow (w : World) (c : Controls) (step : nat) (s : SessionState) :
  (1 <= num_buoys c)%nat ->
  exists flag s' out total active alerts,
    iteration w c step s = (Returned flag, s', out) /\
    metrics out = [("Total Signals"%string, total);
                   ("Active Buoys"%string, active);
                   ("Whale Alerts"%string, alerts)] /\
    total = (length (buoy_data s) + num_buoys c)%nat /\
    (nunique (buoy_data s) <= active <= total)%nat /\
    (length (filter is_alert (buoy_data s)) <= alerts <= total)%nat.
Proof.
  intros HB.
  destruct (iteration_run w c step s (new_rows_nonempty w (num_buoys c) step _ HB))
    as (latest_row & _ & Hit).
  do 6 eexists. split; [exact Hit|]. split; [apply iteration_output_metrics|].
  split; [rewrite length_app, new_rows_length; reflexivity|].
  split; [split; [apply nunique_app_le | apply nunique_le_length]|].
  split.
  - rewrite filter_app, length_app. lia.
  - apply filter_length_le.
Qed.

Lemma metrics_grow_witness :
  exists flag s' out total active alerts,
    iteration sample_world sample_controls 0 {| buoy_data := []; running := true |}
      = (Returned flag, s', out) /\
    metrics out = [("Total Signals"%string, total);
                   ("Active Buoys"%string, active);
                   ("Whale Alerts"%string, alerts)] /\
    total = 3%nat.
Proof.
  destruct (metrics_grow sample_world sample_controls 0
              {| buoy_data := []; running := true |})
    as (flag & s' & out & total & active & alerts & H1 & H2 & H3 & _).
  - cbn. lia.
  - exists flag, s', out, total, active, alerts. repeat split; assumption.
Defined.

Lemma tail_rows_length (n : nat) (df : DataFrame) :
  length (tail_rows n df) = Nat.min n (length df).
Proof. unfold tail_rows. rewrite length_skipn. lia. Qed.

Lemma tail_rows_In (n : nat) (df : DataFrame) (r : Reading) :
  In r (tail_rows n df) -> In r df.
Proof.
  unfold tail_rows. intros H.
  rewrite <- (firstn_skipn (length df - n) df). apply in_or_app. right. exact H.
Qed.

Lemma iteration_output_alerts (c : Controls) (step : nat) (df : DataFrame)
  (latest_row : Reading) (flag : bool) :
  alert_timelines (iteration_output c step df latest_row flag) =
  match filter is_alert df with
  | [] => []
  | alerts => [tail_rows 50 alerts]
  end.
Proof. unfold iteration_output. destruct (filter is_alert df); reflexivity. Qed.

(** X4. A pass draws the whale-alert timeline exactly when the log
    holds a reading with a stored whale probability above 0.7; the
    timeline then shows the last 50 such readings at most, never an
    empty chart and never a reading that is not an alert. *)
Theorem alert_timeline_shown_iff_alerts
  (w : World) (c : Controls) (step : nat) (s : SessionState) :
  (1 <= num_buoys c)%nat ->
  let df := buoy_data s ++ new_rows w (num_buoys c) step in
  exists flag s' out,
    iteration w c step s = (Returned flag, s', out) /\
    (existsb is_alert df = false -> alert_timelines out = []) /\
    (existsb is_alert df = true ->
       exists rows,
         alert_timelines out = [rows] /\ rows <> [] /\
         length rows = Nat.min 50 (length (filter is_alert df)) /\
         forall r, In r rows -> In r df /\ is_alert r = true).
Proof.
  intros HB df.
  destruct (iteration_run w c step s (new_rows_nonempty w (num_buoys c) step _ HB))
    as (latest_row & _ & Hit).
  fold df in Hit. do 3 eexists. split; [exact Hit|].
  rewrite iteration_output_alerts. split.
  - intros H. rewrite filter_none; [reflexivity|].
    intros x Hx. destruct (is_alert x) eqn:E; [|reflexivity].
    assert (existsb is_alert df = true) by (apply existsb_exists; eauto). congruence.
  - intros H. apply existsb_exists in H as (x & Hx & Ex).
    assert (Hin : In x (filter is_alert df)) by (apply filter_In; auto).
    destruct (filter is_alert df) as [ | a rest] eqn:Ef; [destruct Hin|].
    exists (tail_rows 50 (a :: rest)). split; [reflexivity|].
    split; [|split].
    + intros E0. apply (f_equal (@length Reading)) in E0.
      rewrite tail_rows_length in E0. cbn in E0. lia.
    + apply tail_rows_length.
    + intros r Hr. apply tail_rows_In in Hr. rewrite <- Ef in Hr.
      apply filter_In in Hr. exact Hr.
Qed.

Lemma alert_timeline_shown_iff_alerts_witness :
  exists flag s' out,
    iteration sample_world sample_controls 0 {| buoy_data := []; running := true |}
      = (Returned flag, s', out) /\
    exists rows, alert_timelines out = [rows] /\ length rows = 2%nat.
Proof.
  destruct (alert_timeline_shown_iff_alerts sample_world sample_controls 0
              {| buoy_data := []; running := true |})
    as (flag & s' & out & H1 & _ & H2).
  - cbn. lia.
  - destruct H2 as (rows & Hr & _ & Hlen & _); [vm_compute; reflexivity|].
    exists flag, s', out. split; [exact H1|]. exists rows. split; [exact Hr|].
    rewrite Hlen. vm_compute. reflexivity.
Defined.

(** X5. A pass never fails at [latest.iloc[-1]]: it raises only on a
    frame without rows, which takes an empty log and no buoy; it then
    stops with a [KeyError] after showing a signal count of 0, and
    leaves the log empty. *)
Theorem iteration_raises_only_on_empty
  (w : World) (c : Controls) (step : nat) (s : SessionState) :
  let df := buoy_data s ++ new_rows w (num_buoys c) step in
  (df = [] <-> buoy_data s = [] /\ num_buoys c = 0%nat) /\
  (df = [] ->
     exists flag,
       iteration w c step s =
         (Raised KeyError, {| buoy_data := []; running := flag |},
          [Metric "Total Signals" 0])) /\
  (df <> [] ->
     exists flag s' out, iteration w c step s = (Returned flag, s', out)).
Proof.
  intros df. split; [|split].
  - split.
    + intros E. apply app_eq_nil in E as [E1 E2]. split; [exact E1|].
      apply (f_equal (@length Reading)) in E2. rewrite new_rows_length in E2. exact E2.
    + intros [E1 E2]. unfold df. rewrite E1, E2. reflexivity.
  - intros E. unfold iteration.
    cbv [bind ret show extend get_buoy_data get_running clear_running column raise].
    destruct (stop_request w step); cbn [buoy_data running]; fold df; rewrite E;
      eexists; reflexivity.
  - intros Hne. destruct (iteration_run w c step s Hne) as (latest_row & _ & Hit).
    do 3 eexists. exact Hit.
Qed.

(** ** The running flag after a run *)

Lemma live_loop_flag (w : World) (c : Controls) (steps : list nat) (s : SessionState) :
  (1 <= num_buoys c)%nat -> running s = true ->
  running (snd (fst (live_loop w c steps s))) =
  forallb (fun k => negb (stop_request w k)) steps.
Proof.
  intros HB. revert s. induction steps as [ | step rest IH]; intros s Hrun.
  - cbn. exact Hrun.
  - cbn [live_loop forallb].
    destruct (iteration_run w c step s (new_rows_nonempty w (num_buoys c) step _ HB))
      as (latest_row & _ & Hit).
    rewrite Hrun in Hit. cbn [andb] in Hit.
    unfold bind at 1. rewrite Hit.
    destruct (stop_request w step); cbn [negb andb].
    + reflexivity.
    + specialize (IH {| buoy_data := buoy_data s ++ new_rows w (num_buoys c) step;
                        running := true |} eq_refl).
      destruct (live_loop w c rest _) as [[o s2] out2]. exact IH.
Qed.

Lemma executed_no_stop (w : World) (steps : list nat) :
  forallb (fun k => negb (stop_request w k)) steps = true ->
  executed w steps = length steps.
Proof.
  induction steps as [ | step rest IH]; cbn [forallb executed length]; [reflexivity|].
  intros H. apply andb_true_iff in H as [H1 H2].
  destruct (stop_request w step); [discriminate|]. rewrite IH by exact H2. reflexivity.
Qed.

(** X6. After a run of the live loop the running flag is still set
    exactly when no stop was requested during any of its 50 passes. The
    bound of 50 passes therefore does not stop the simulation: without
    a stop request the run appends 50 readings per buoy, leaves the
    flag set, and a rerun of the page with no button pressed enters the
    loop again. *)
Theorem running_flag_after_run (w : World) (c : Controls) (stored : StoredSession) :
  sliders_in_range c = true ->
  running (prelude c stored) = true ->
  exists s' out,
    run_iot_buoy w c stored = (Returned tt, s', out) /\
    running s' = forallb (fun k => negb (stop_request w k)) (seq 0 50) /\
    running (prelude (no_button c) (store s')) = running s' /\
    (running s' = true ->
       length (buoy_data s') =
         (length (buoy_data (prelude c stored)) + 50 * num_buoys c)%nat).
Proof.
  intros Hs Hrun.
  pose proof (proj1 (sliders_num_buoys c Hs)) as HB.
  destruct (run_when_running w c HB stored Hrun)
    as (blocks & flag & Hr & _ & _ & _ & _).
  pose proof (live_loop_flag w c (seq 0 50) (prelude c stored) HB Hrun) as Hflag.
  unfold run_iot_buoy in Hr. rewrite Hrun in Hr. rewrite Hr in Hflag. cbn [fst snd running] in Hflag.
  eexists. eexists. split; [unfold run_iot_buoy; rewrite Hrun; exact Hr|].
  cbn [running buoy_data]. split; [exact Hflag|]. split; [reflexivity|].
  intros Ht. rewrite Hflag in Ht.
  rewrite (executed_no_stop w (seq 0 50) Ht), length_seq, log_after_length. reflexivity.
Qed.

Lemma running_flag_after_run_witness :
  exists s' out,
    run_iot_buoy ticking_world sample_controls fresh_session = (Returned tt, s', out) /\
    running s' = true /\ length (buoy_data s') = 150%nat.
Proof.
  destruct (running_flag_after_run ticking_world sample_controls fresh_session
              eq_refl eq_refl) as (s' & out & H1 & H2 & _ & H3).
  exists s', out. split; [exact H1|]. split; [exact H2|]. apply H3. exact H2.
Defined.

(** ** The health score *)

Lemma health_table_5 : health_table_ok 5 = true.
Proof. vm_compute. reflexivity. Qed.

Lemma health_of_counts_cases (K N : nat) :
  (1 <= N <= 5)%nat -> (K <= N)%nat ->
  let h := health_of_counts K N in
  between 0 100 h = true /\
  (h = 100%float <-> K = 0%nat) /\
  (h = 0%float <-> K = N).
Proof.
  intros HN HK h.
  pose proof health_table_5 as T. unfold health_table_ok in T.
  rewrite forallb_forall in T. specialize (T N ltac:(apply in_seq; lia)).
  rewrite forallb_forall in T. specialize (T K ltac:(apply in_seq; lia)).
  cbv zeta in T. fold h in T.
  apply andb_true_iff in T as [T T3]. apply andb_true_iff in T as [T1 T2].
  apply Bool.eqb_prop in T2, T3.
  split; [exact T1|]. split.
  - rewrite <- Leibniz.eqb_spec, T2. apply Nat.eqb_eq.
  - rewrite <- Leibniz.eqb_spec, T3. apply Nat.eqb_eq.
Qed.

Lemma labels_within_nunique (n : nat) (df : DataFrame) :
  labels_within n df -> (nunique df <= n)%nat.
Proof.
  intros H. unfold nunique.
  apply Nat.le_trans with (length (map label_of_buoy (seq 1 n)));
    [|rewrite length_map, length_seq; lia].
  apply NoDup_incl_length; [apply NoDup_nodup|].
  intros b Hb. apply nodup_In in Hb. apply in_map_iff in Hb as (r & <- & Hr).
  unfold labels_within in H. rewrite Forall_forall in H. apply H, Hr.
Qed.

Lemma health_score_counts (latest : DataFrame) :
  health_score latest =
  health_of_counts (length (filter anomaly latest)) (length latest).
Proof.
  unfold health_score, health_of_counts, series_mean, anomaly_flags.
  rewrite count_true_filter, length_map. reflexivity.
Qed.

(** X7. On a non-empty log of readings from at most five buoys, as the
    buoy slider allows, the health score lies between 0 and 100; it is
    exactly 100 when no row of the latest view is flagged anomalous and
    only then, and exactly 0 when every row is flagged and only then. *)
Theorem health_score_bounds (df : DataFrame) :
  df <> [] -> labels_within 5 df ->
  let latest := latest_per_buoy df in
  between 0 100 (health_score latest) = true /\
  (health_score latest = 100%float <-> filter anomaly latest = []) /\
  (health_score latest = 0%float <-> filter anomaly latest = latest).
Proof.
  intros Hne Hl latest.
  pose proof (latest_per_buoy_count df) as HN. fold latest in HN.
  pose proof (labels_within_nunique 5 df Hl) as H5.
  assert (Hpos : (1 <= length latest)%nat).
  { pose proof (latest_per_buoy_nonempty df Hne) as Hn. fold latest in Hn.
    destruct latest; [congruence | cbn; lia]. }
  pose proof (filter_length_le anomaly latest) as HK.
  destruct (health_of_counts_cases (length (filter anomaly latest)) (length latest))
    as (Hb & H100 & H0); try lia.
  rewrite health_score_counts. split; [exact Hb|]. split.
  - rewrite H100. apply length_zero_iff_nil.
  - rewrite H0. split.
    + intros E. clear - E. induction latest as [ | x rest IH]; [reflexivity|].
      cbn [filter] in *. destruct (anomaly x).
      * cbn [length] in E. f_equal. apply IH. lia.
      * pose proof (filter_length_le anomaly rest). cbn [length] in E. lia.
    + intros E. rewrite E. reflexivity.
Qed.

Lemma health_score_bounds_witness :
  between 0 100 (health_score (latest_per_buoy (new_rows sample_world 3 0))) = true.
Proof.
  apply (health_score_bounds (new_rows sample_world 3 0)).
  - discriminate.
  - unfold labels_within. repeat constructor; vm_compute; tauto.
Defined.

(** ** The scorer on raw and on stored values *)

Lemma leb_false_ltb (a b : float) :
  finite a = true -> finite b = true ->
  (a <? b)%float = false -> (b <=? a)%float = true.
Proof.
  intros Fa Fb. rewrite ltb_value, leb_value by assumption.
  intros H. apply Z.ltb_ge in H. apply Z.leb_le. exact H.
Qed.

Lemma leb_true_ltb (a b : float) :
  finite a = true -> finite b = true ->
  (b <=? a)%float = true -> (a <? b)%float = false.
Proof.
  intros Fa Fb. rewrite ltb_value, leb_value by assumption.
  intros H. apply Z.leb_le in H. apply Z.ltb_ge. exact H.
Qed.

Lemma finite_100 : finite 100 = true. Proof. closed_float. Qed.
Lemma finite_6 : finite 6 = true. Proof. closed_float. Qed.
Lemma finite_3 : finite 3 = true. Proof. closed_float. Qed.
Lemma finite_0_7 : finite 0.7 = true. Proof. closed_float. Qed.
Lemma finite_20 : finite 20 = true. Proof. closed_float. Qed.
Lemma finite_120 : finite 120 = true. Proof. closed_float. Qed.
Lemma finite_5 : finite 5 = true. Proof. closed_float. Qed.
Lemma finite_18 : finite 18 = true. Proof. closed_float. Qed.
Lemma finite_0_5 : finite 0.5 = true. Proof. closed_float. Qed.
Lemma finite_3_5 : finite 3.5 = true. Proof. closed_float. Qed.
Lemma finite_above_0_7 : finite 0.7000000000000001 = true. Proof. closed_float. Qed.

#[local] Hint Resolve finite_100 finite_6 finite_3 finite_0_7 finite_20 finite_120
  finite_5 finite_18 finite_0_5 finite_3_5 finite_above_0_7 : b64.

Lemma sound_upto_100_grid : grid_ok 1 20 100 200 1000 = true.
Proof. vm_compute. reflexivity. Qed.

Lemma temp_from_6_grid : grid_ok 2 6 18 600 1800 = true.
Proof. vm_compute. reflexivity. Qed.

Lemma wave_upto_3_grid : grid_ok 2 0.5 3 50 300 = true.
Proof. vm_compute. reflexivity. Qed.

Lemma between_split (a b x : float) :
  between a b x = true -> (a <=? x)%float = true /\ (x <=? b)%float = true.
Proof. unfold between. intros H. apply andb_true_iff in H. exact H. Qed.

Lemma sound_not_flagged (x : float) :
  between 20 120 x = true -> (100 <? x)%float = false ->
  (100 <? Py.round x 1)%float = false.
Proof.
  intros Hx Hlt.
  destruct (between_inv 20 120 x) as (Fx & _); auto with b64.
  apply between_split in Hx as [Hlo _].
  assert (Hb : between 20 100 x = true).
  { unfold between. rewrite Hlo. apply (leb_false_ltb 100 x finite_100 Fx Hlt). }
  destruct (round_range 1 20 100 x 200 1000 sound_upto_100_grid ltac:(lia)
              finite_20 finite_100 ltac:(closed_float) ltac:(closed_float) Hb) as [Hr _].
  destruct (between_inv 20 100 (Py.round x 1)) as (Fr & _); auto with b64.
  apply between_split in Hr as [_ Hhi].
  apply (leb_true_ltb 100 _ finite_100 Fr Hhi).
Qed.

Lemma temp_not_flagged (x : float) :
  between 5 18 x = true -> (x <? 6)%float = false ->
  (Py.round x 2 <? 6)%float = false.
Proof.
  intros Hx Hlt.
  destruct (between_inv 5 18 x) as (Fx & _); auto with b64.
  apply between_split in Hx as [_ Hhi].
  assert (Hb : between 6 18 x = true).
  { unfold between. rewrite Hhi, (leb_false_ltb x 6 Fx finite_6 Hlt). reflexivity. }
  destruct (round_range 2 6 18 x 600 1800 temp_from_6_grid ltac:(lia)
              finite_6 finite_18 ltac:(closed_float) ltac:(closed_float) Hb) as [Hr _].
  destruct (between_inv 6 18 (Py.round x 2)) as (Fr & _); auto with b64.
  apply between_split in Hr as [Hlo _].
  apply (leb_true_ltb _ 6 Fr finite_6 Hlo).
Qed.

Lemma wave_not_flagged (x : float) :
  between 0.5 3.5 x = true -> (3 <? x)%float = false ->
  (3 <? Py.round x 2)%float = false.
Proof.
  intros Hx Hlt.
  destruct (between_inv 0.5 3.5 x) as (Fx & _); auto with b64.
  apply between_split in Hx as [Hlo _].
  assert (Hb : between 0.5 3 x = true).
  { unfold between. rewrite Hlo. apply (leb_false_ltb 3 x finite_3 Fx Hlt). }
  destruct (round_range 2 0.5 3 x 50 300 wave_upto_3_grid ltac:(lia)
              finite_0_5 finite_3 ltac:(closed_float) ltac:(closed_float) Hb) as [Hr _].
  destruct (between_inv 0.5 3 (Py.round x 2)) as (Fr & _); auto with b64.
  apply between_split in Hr as [_ Hhi].
  apply (leb_true_ltb 3 _ finite_3 Fr Hhi).
Qed.

(** X8. The anomaly flag is computed on the stored, rounded fields, and
    rounding never creates it: a generated reading is flagged only if
    the raw draws already satisfy sound > 100 or temperature < 6 or
    wave height > 3. *)
Theorem anomaly_needs_raw_anomaly (buoy_id : nat) (now : Z) (d : Draws) :
  draws_in_range d = true ->
  anomaly (generate_buoy_reading buoy_id now d) = true ->
  is_anomalous (u_sound d) (u_temp d) (u_wave d) = true.
Proof.
  intros H Ha. apply draws_in_range_inv in H as (_ & _ & Ht & _ & Hs & Hw & _).
  unfold anomaly in Ha. cbn [sound temp wave generate_buoy_reading] in Ha.
  unfold is_anomalous in *.
  destruct (100 <? u_sound d)%float eqn:Es; [reflexivity|].
  destruct (u_temp d <? 6)%float eqn:Et; [reflexivity|].
  destruct (3 <? u_wave d)%float eqn:Ew; [reflexivity|].
  rewrite (sound_not_flagged _ Hs Es), (temp_not_flagged _ Ht Et),
    (wave_not_flagged _ Hw Ew) in Ha. exact Ha.
Qed.

Lemma anomaly_needs_raw_anomaly_witness :
  is_anomalous (u_sound fine_draws) (u_temp fine_draws) (u_wave fine_draws) = true.
Proof.
  apply (anomaly_needs_raw_anomaly 2 1 fine_draws); vm_compute; reflexivity.
Defined.

(** The converse fails: a raw sound level of 100.04 exceeds 100, is
    stored as 100.0, and the reading is not flagged. *)
Example raw_anomaly_lost_by_rounding :
  let d := {| u_lat := 0; u_lon := 0; u_temp := 10; u_depth := 100;
              u_sound := 100.04; u_wave := 1; u_jitter := 0 |} in
  draws_in_range d = true /\
  is_anomalous (u_sound d) (u_temp d) (u_wave d) = true /\
  anomaly (generate_buoy_reading 1 0 d) = false.
Proof. repeat split; vm_compute; reflexivity. Qed.

Lemma low_prob_grid : grid_ok 2 0 0.2 1 20 = true.
Proof. vm_compute. reflexivity. Qed.

Lemma mid_prob_grid : grid_ok 2 0 0.7 1 70 = true.
Proof. vm_compute. reflexivity. Qed.

(** A rule sum that, with the largest jitter, stays below [hi < 1]
    gives a stored probability of at most [H] hundredths. *)
Lemma low_rule_sum_rounded (d : Draws) (hi top : float) (H : nat) :
  jitter_in_range d = true ->
  finite hi = true -> finite top = true ->
  value (rule_sum d) + value 0.2 <= value hi ->
  value hi < value 1 ->
  0 <= value top ->
  200 * value hi < (2 * Z.of_nat H + 1) * 2 ^ 1074 ->
  grid_ok 2 0 top 1 H = true ->
  between 0 top (Py.round (clamped_prob d) 2) = true.
Proof.
  intros Hj Fhi Ftop Hsum Hhi1 Htop Hround G.
  unfold jitter_in_range in Hj.
  destruct (between_inv 0 0.2 (u_jitter d)) as (Fj & Hj1 & Hj2); auto with b64.
  destruct (rule_sum_range d) as (Fp & Hp1 & _).
  rewrite value_0 in Hj1.
  assert (Hs : value 0 <= value (rule_sum d) + value (u_jitter d) <= value hi)
    by (rewrite value_0; lia).
  destruct (add_between (rule_sum d) (u_jitter d) 0 hi) as (Fs & Hs1 & Hs2);
    auto with b64.
  rewrite value_0 in Hs1.
  assert (Ec : clamped_prob d = (rule_sum d + u_jitter d)%float).
  { unfold clamped_prob, Py.min. rewrite ltb_value by auto with b64.
    destruct (Z.ltb_spec (value (rule_sum d + u_jitter d)) (value 1)); [reflexivity | lia]. }
  rewrite Ec.
  assert (HG : 0 < 2 ^ 1074) by (apply pow2_pos; lia).
  assert (Hup : 2 * 10 ^ Z.of_nat 2 * value (rule_sum d + u_jitter d)
                < (2 * Z.of_nat H + 1) * 2 ^ 1074).
  { change (10 ^ Z.of_nat 2) with 100. lia. }
  destruct (round_units_nonneg _ 2 (Z.of_nat H) Fs Hs1 Hup)
    as [[E Z0] | [E | (k & Hk & E)]]; rewrite E.
  - unfold between. rewrite !leb_value by auto with b64.
    rewrite Z0, value_0. apply andb_true_iff. split; apply Z.leb_le; lia.
  - unfold between. rewrite !leb_value by auto with b64.
    rewrite value_0. apply andb_true_iff. split; apply Z.leb_le; lia.
  - apply (grid_ok_at 2 0 top 1 H k G). cbn [Z.of_nat]. lia.
Qed.

Lemma upto_0_7_no_alert (v : float) :
  between 0 0.7 v = true -> (0.7 <? v)%float = false.
Proof.
  intros Hv. destruct (between_inv 0 0.7 v) as (Fv & _); auto with b64.
  apply between_split in Hv as [_ Hhi].
  apply (leb_true_ltb 0.7 v finite_0_7 Fv Hhi).
Qed.

(** X9. A generated reading is a whale alert (stored probability above
    0.7) only if the sound rule fired or the three other rules all
    fired: with a rule sum of at most 0.5 the jitter of at most 0.2
    cannot lift the stored value above 0.7. *)
Theorem alert_needs_rules (buoy_id : nat) (now : Z) (d : Draws) :
  jitter_in_range d = true ->
  is_alert (generate_buoy_reading buoy_id now d) = true ->
  (85 <? u_sound d)%float = true \/
  (((8 <? u_temp d) && (u_temp d <? 16)) && (80 <? u_depth d) && (u_wave d <? 2))%float = true.
Proof.
  intros Hj Ha.
  assert (Hc : ((85 <? u_sound d)%float = true \/
                (((8 <? u_temp d) && (u_temp d <? 16)) && (80 <? u_depth d)
                 && (u_wave d <? 2))%float = true) \/
               value (rule_sum d) + value 0.2 <= value 0.7000000000000001).
  { unfold rule_sum. cbv zeta.
    destruct (85 <? u_sound d)%float; [left; left; reflexivity|].
    destruct ((8 <? u_temp d) && (u_temp d <? 16))%float, (80 <? u_depth d)%float,
             (u_wave d <? 2)%float;
      try (left; right; reflexivity); right; apply Z.leb_le; closed_float. }
  destruct Hc as [Hc | Hc]; [exact Hc | exfalso].
  unfold is_alert in Ha. cbn [whale_prob generate_buoy_reading] in Ha.
  rewrite upto_0_7_no_alert in Ha; [discriminate|].
  apply (low_rule_sum_rounded d 0.7000000000000001 0.7 70 Hj
           finite_above_0_7 finite_0_7 Hc).
  - apply Z.ltb_lt. closed_float.
  - apply Z.leb_le. closed_float.
  - apply Z.ltb_lt. closed_float.
  - exact mid_prob_grid.
Qed.

Lemma alert_needs_rules_witness :
  (85 <? u_sound (all_rules_draws 0.1))%float = true \/
  (((8 <? u_temp (all_rules_draws 0.1)) && (u_temp (all_rules_draws 0.1) <? 16)) &&
   (80 <? u_depth (all_rules_draws 0.1)) && (u_wave (all_rules_draws 0.1) <? 2))%float = true.
Proof.
  apply (alert_needs_rules 1 0 (all_rules_draws 0.1)); vm_compute; reflexivity.
Defined.

(** X10. When none of the four rules fires, the stored whale
    probability is the rounded jitter alone: it lies between 0 and 0.2
    and the reading is not a whale alert. *)
Theorem no_rule_prob_is_jitter (buoy_id : nat) (now : Z) (d : Draws) :
  jitter_in_range d = true ->
  (85 <? u_sound d)%float = false ->
  ((8 <? u_temp d) && (u_temp d <? 16))%float = false ->
  (80 <? u_depth d)%float = false ->
  (u_wave d <? 2)%float = false ->
  let r := generate_buoy_reading buoy_id now d in
  rule_sum d = 0%float /\
  whale_prob r = Py.round (0 + u_jitter d) 2 /\
  between 0 0.2 (whale_prob r) = true /\
  is_alert r = false.
Proof.
  intros Hj Hs Ht Hd Hw r.
  assert (E0 : rule_sum d = 0%float).
  { unfold rule_sum. rewrite Hs, Ht, Hd, Hw. reflexivity. }
  assert (Hb : between 0 0.2 (Py.round (clamped_prob d) 2) = true).
  { apply (low_rule_sum_rounded d 0.2 0.2 20 Hj finite_0_2 finite_0_2).
    - rewrite E0, value_0. lia.
    - apply Z.ltb_lt. closed_float.
    - apply Z.leb_le. closed_float.
    - apply Z.ltb_lt. closed_float.
    - exact low_prob_grid. }
  subst r. cbn [whale_prob generate_buoy_reading].
  split; [exact E0|]. split; [|split; [exact Hb|]].
  - f_equal. unfold clamped_prob, Py.min. rewrite E0.
    unfold jitter_in_range in Hj.
    destruct (between_inv 0 0.2 (u_jitter d)) as (Fj & Hj1 & Hj2); auto with b64.
    assert (Hsum : value 0 <= value 0 + value (u_jitter d) <= value 0.2)
      by (rewrite value_0 in *; lia).
    destruct (add_between 0 (u_jitter d) 0 0.2) as (Fs & _ & Hs2); auto with b64.
    rewrite ltb_value by auto with b64.
    assert (value 0.2 < value 1) by (apply Z.ltb_lt; closed_float).
    destruct (Z.ltb_spec (value (0 + u_jitter d)) (value 1)); [reflexivity | lia].
  - unfold is_alert. cbn [whale_prob generate_buoy_reading].
    destruct (between_inv 0 0.2 (Py.round (clamped_prob d) 2)) as (Fr & _ & Hr);
      auto with b64.
    rewrite ltb_value by auto with b64.
    apply Z.ltb_ge.
    assert (value 0.2 <= value 0.7) by (apply Z.leb_le; closed_float). lia.
Qed.

Lemma no_rule_prob_is_jitter_witness :
  let d := {| u_lat := 0; u_lon := 0; u_temp := 17; u_depth := 60;
              u_sound := 30; u_wave := 3; u_jitter := 0.15 |} in
  between 0 0.2 (whale_prob (generate_buoy_reading 1 0 d)) = true.
Proof.
  cbv zeta.
  apply (no_rule_prob_is_jitter 1 0
           {| u_lat := 0; u_lon := 0; u_temp := 17; u_depth := 60;
              u_sound := 30; u_wave := 3; u_jitter := 0.15 |});
    vm_compute; reflexivity.
Defined.

(** ** A run that does not enter the loop *)

Lemma live_loop_no_warning (w : World) (c : Controls) (steps : list nat) (s : SessionState) :
  (1 <= num_buoys c)%nat ->
  ~ In Warning (snd (live_loop w c steps s)).
Proof.
  intros HB. revert s. induction steps as [ | step rest IH]; intros s.
  - cbn. tauto.
  - cbn [live_loop].
    destruct (iteration_run w c step s (new_rows_nonempty w (num_buoys c) step _ HB))
      as (latest_row & _ & Hit).
    unfold bind at 1. rewrite Hit.
    assert (Hout : ~ In Warning
                     (iteration_output c step (buoy_data s ++ new_rows w (num_buoys c) step)
                        latest_row (running s && negb (stop_request w step)))).
    { unfold iteration_output. destruct (filter is_alert _); cbn [In app];
        intuition discriminate. }
    destruct (running s && negb (stop_request w step)).
    + specialize (IH {| buoy_data := buoy_data s ++ new_rows w (num_buoys c) step;
                        running := true |}).
      destruct (live_loop w c rest _) as [[o s2] out2]. cbn [snd] in *.
      intros Hin. apply in_app_or in Hin. tauto.
    + unfold ret. cbn [snd]. rewrite app_nil_r. exact Hout.
Qed.

Lemma prelude_running (c : Controls) (stored : StoredSession) :
  running (prelude c stored) = false <->
  stop_pressed c = true \/
  (start_pressed c = false /\ stored_running stored <> Some true).
Proof.
  unfold prelude, press_buttons, session_init.
  destruct (start_pressed c), (stop_pressed c), (stored_running stored) as [[ | ] | ];
    cbn [running]; split; intros H; try reflexivity; try discriminate;
    try (left; reflexivity); try (right; split; [reflexivity | discriminate]);
    destruct H as [H | [H1 H2]]; congruence.
Qed.

(** X11. The page shows the warning that the simulation is stopped exactly when
    Stop was pressed in this run, or Start was not pressed and the
    stored flag is unset or absent: Stop wins over Start, and a fresh
    session does not start by itself. Such a run shows nothing else,
    generates no reading and leaves the log as it found it; a run that
    enters the loop never shows the warning. *)
Theorem warning_iff_not_started (w : World) (c : Controls) (stored : StoredSession) :
  sliders_in_range c = true ->
  exists s' out,
    run_iot_buoy w c stored = (Returned tt, s', out) /\
    (In Warning out <->
       stop_pressed c = true \/
       (start_pressed c = false /\ stored_running stored <> Some true)) /\
    (In Warning out ->
       out = [Warning] /\
       s' = {| buoy_data := stored_log stored; running := false |}).
Proof.
  intros Hs. pose proof (proj1 (sliders_num_buoys c Hs)) as HB.
  pose proof (prelude_running c stored) as Hp.
  destruct (running (prelude c stored)) eqn:Hrun.
  - destruct (run_when_running w c HB stored Hrun) as (blocks & flag & Hr & _).
    pose proof (live_loop_no_warning w c (seq 0 50) (prelude c stored) HB) as Hno.
    eexists. eexists. split; [exact Hr|].
    unfold run_iot_buoy in Hr. rewrite Hrun in Hr. rewrite Hr in Hno. cbn [snd] in Hno.
    split; [split; [tauto | intros H; apply Hp in H; discriminate] | tauto].
  - unfold run_iot_buoy. rewrite Hrun. eexists. eexists. split; [reflexivity|].
    split; [split; [intros _; apply Hp; reflexivity | intros _; left; reflexivity]|].
    intros _. split; [reflexivity|].
    pose proof (prelude_log c stored) as Hlog.
    destruct (prelude c stored) as [log flag]. cbn [running buoy_data] in *.
    unfold stored_log. congruence.
Qed.

Lemma warning_iff_not_started_witness :
  run_iot_buoy sample_world (no_button sample_controls) fresh_session =
  (Returned tt, {| buoy_data := []; running := false |}, [Warning]).
Proof.
  destruct (warning_iff_not_started sample_world (no_button sample_controls) fresh_session)
    as (s' & out & H1 & H2 & H3).
  - reflexivity.
  - destruct H3 as [E1 E2].
    + apply H2. right. split; [reflexivity | discriminate].
    + rewrite H1, E1, E2. reflexivity.
Defined.

(** ** The windows on the log *)

Lemma tail_rows_app (n : nat) (log rows : DataFrame) :
  (length rows <= n)%nat ->
  tail_rows n (log ++ rows) = tail_rows (n - length rows) log ++ rows.
Proof.
  intros H. unfold tail_rows. rewrite skipn_app, length_app.
  replace (length log + length rows - n - length log)%nat with 0%nat by lia.
  replace (length log + length rows - n)%nat
    with (length log - (n - length rows))%nat by lia.
  reflexivity.
Qed.

Lemma iteration_output_windows (c : Controls) (step : nat) (df : DataFrame)
  (latest_row : Reading) (flag : bool) :
  let out := iteration_output c step df latest_row flag in
  tables out = [tail_rows 10 df] /\ sound_trends out = [tail_rows 100 df].
Proof. unfold iteration_output. destruct (filter is_alert df); split; reflexivity. Qed.

(** X12. The table and the sound trend of a pass are windows on the
    end of the log that always hold every reading of the current tick:
    with at most 10 buoys (the slider allows 5) the table shows the
    readings just generated, preceded by the [10 - B] most recent older
    ones, and the trend does the same with 100. *)
Theorem windows_hold_current_tick
  (w : World) (c : Controls) (step : nat) (s : SessionState) :
  (1 <= num_buoys c <= 10)%nat ->
  let B := num_buoys c in
  let rows := new_rows w B step in
  exists flag s' out table trend,
    iteration w c step s = (Returned flag, s', out) /\
    tables out = [table] /\ sound_trends out = [trend] /\
    table = tail_rows (10 - B) (buoy_data s) ++ rows /\
    trend = tail_rows (100 - B) (buoy_data s) ++ rows /\
    length table = Nat.min 10 (length (buoy_data s) + B) /\
    length trend = Nat.min 100 (length (buoy_data s) + B).
Proof.
  intros HB B rows.
  destruct (iteration_run w c step s (new_rows_nonempty w B step _ (proj1 HB)))
    as (latest_row & _ & Hit).
  fold rows in Hit.
  destruct (iteration_output_windows c step (buoy_data s ++ rows) latest_row
              (running s && negb (stop_request w step))) as [Ht Hd].
  assert (Hlen : length rows = B) by apply new_rows_length.
  do 5 eexists. split; [exact Hit|].
  split; [exact Ht|]. split; [exact Hd|].
  split; [rewrite tail_rows_app, Hlen by (subst B; lia); reflexivity|].
  split; [rewrite tail_rows_app, Hlen by (subst B; lia); reflexivity|].
  rewrite !tail_rows_length, length_app, Hlen. split; reflexivity.
Qed.

Lemma windows_hold_current_tick_witness :
  exists flag s' out table,
    iteration sample_world sample_controls 4
      {| buoy_data := log_after sample_world 3 [] 4; running := true |}
      = (Returned flag, s', out) /\
    tables out = [table] /\ length table = 10%nat.
Proof.
  destruct (windows_hold_current_tick sample_world sample_controls 4
              {| buoy_data := log_after sample_world 3 [] 4; running := true |})
    as (flag & s' & out & table & trend & H1 & H2 & _ & _ & _ & H3 & _).
  - cbn. lia.
  - exists flag, s', out, table. split; [exact H1|]. split; [exact H2|].
    rewrite H3. cbn [buoy_data]. rewrite log_after_length. reflexivity.
Defined.

(** ** The reading behind the payload *)

Lemma sorted_before_last {A : Type} (R : A -> A -> Prop) (l : list A) (x : A) :
  StronglySorted R (l ++ [x]) -> Forall (fun y => R y x) l.
Proof.
  induction l as [ | y rest IH]; cbn [app]; intros H; [constructor|].
  apply StronglySorted_inv in H as [Hs Hy]. constructor.
  - apply Forall_app in Hy as [_ Hx]. apply Forall_inv in Hx. exact Hx.
  - apply IH, Hs.
Qed.

Lemma last_row_latest_is_newest (df : DataFrame) (r : Reading) :
  last_row (latest_per_buoy df) = Some r ->
  In r df /\ forall r', In r' df -> time r' <= time r.
Proof.
  unfold latest_per_buoy. intros Hlast.
  pose proof (sort_values_sorted df) as Hsorted.
  destruct (exists_last (l := sort_values df)) as (init & x & E).
  { intros E0. rewrite E0 in Hlast. discriminate. }
  rewrite E in Hlast, Hsorted.
  destruct (groupby_tail1_last init x) as (kept & Ek).
  rewrite Ek, last_row_app in Hlast. injection Hlast as <-.
  assert (Hx : In x (sort_values df)) by (rewrite E; apply in_or_app; right; left; reflexivity).
  split; [apply sort_values_In, Hx|].
  intros r' Hr'. apply sort_values_In in Hr'. rewrite E in Hr'.
  apply in_app_or in Hr' as [Hr' | [<- | []]]; [|lia].
  pose proof (sorted_before_last _ _ _ Hsorted) as Hall.
  rewrite Forall_forall in Hall. apply (Hall r' Hr').
Qed.

Lemma iteration_output_payload (c : Controls) (step : nat) (df : DataFrame)
  (latest_row : Reading) (flag : bool) :
  let out := iteration_output c step df latest_row flag in
  payloads out = [cloud_msg latest_row] /\
  payload_downloads out = [cloud_msg latest_row] /\
  topics out = [topic latest_row].
Proof. unfold iteration_output. destruct (filter is_alert df); repeat split; reflexivity. Qed.

(** X13. Whatever the clock does, the payload of a pass is built from a
    reading of the log that no other reading is later than; the payload
    shown, the payload offered for download and the MQTT topic all come
    from that one reading; and when the payload raises the alert, the
    same pass counts at least one whale alert and draws the alert
    timeline. *)
Theorem payload_from_newest_reading
  (w : World) (c : Controls) (step : nat) (s : SessionState) :
  (1 <= num_buoys c)%nat ->
  let df := buoy_data s ++ new_rows w (num_buoys c) step in
  exists flag s' out r,
    iteration w c step s = (Returned flag, s', out) /\
    In r df /\ (forall r', In r' df -> time r' <= time r) /\
    payloads out = [cloud_msg r] /\
    payload_downloads out = [cloud_msg r] /\
    topics out = [topic r] /\
    (ai_alert (cloud_msg r) = true ->
       (exists rows, alert_timelines out = [rows] /\ rows <> []) /\
       exists total active alerts,
         metrics out = [("Total Signals"%string, total);
                        ("Active Buoys"%string, active);
                        ("Whale Alerts"%string, alerts)] /\
         (1 <= alerts)%nat).
Proof.
  intros HB df.
  destruct (iteration_run w c step s (new_rows_nonempty w (num_buoys c) step _ HB))
    as (r & Hlast & Hit).
  fold df in Hit, Hlast.
  destruct (last_row_latest_is_newest df r Hlast) as [Hin Hmax].
  destruct (iteration_output_payload c step df r
              (running s && negb (stop_request w step))) as (Hp & Hd & Ht).
  do 3 eexists. exists r. split; [exact Hit|].
  split; [exact Hin|]. split; [exact Hmax|].
  split; [exact Hp|]. split; [exact Hd|]. split; [exact Ht|].
  cbn [ai_alert cloud_msg]. intros Ha.
  assert (Hf : In r (filter is_alert df)) by (apply filter_In; auto).
  rewrite iteration_output_alerts, iteration_output_metrics. split.
  - destruct (filter is_alert df) as [ | a rest] eqn:Ef; [destruct Hf|].
    eexists. split; [reflexivity|].
    intros E0. apply (f_equal (@length Reading)) in E0.
    rewrite tail_rows_length in E0. cbn in E0. lia.
  - do 3 eexists. split; [reflexivity|].
    destruct (filter is_alert df); [destruct Hf | cbn; lia].
Qed.

Lemma payload_from_newest_reading_witness :
  exists flag s' out r,
    iteration sample_world sample_controls 0 {| buoy_data := []; running := true |}
      = (Returned flag, s', out) /\
    payloads out = [cloud_msg r] /\ topics out = [topic r].
Proof.
  destruct (payload_from_newest_reading sample_world sample_controls 0
              {| buoy_data := []; running := true |})
    as (flag & s' & out & r & H1 & _ & _ & H2 & _ & H3 & _).
  - cbn. lia.
  - exists flag, s', out, r. repeat split; assumption.
Defined.

(** ** Topics and device ids *)

Lemma append_length (a b : string) :
  String.length (String.append a b) = (String.length a + String.length b)%nat.
Proof. induction a as [ | ch a IH]; cbn; [reflexivity | rewrite IH; reflexivity]. Qed.

Lemma append_cancel_r (a b s : string) :
  String.append a s = String.append b s -> a = b.
Proof.
  revert b. induction a as [ | ch a IH]; intros [ | ch' b] E; cbn in E.
  - reflexivity.
  - apply (f_equal String.length) in E. cbn in E. rewrite append_length in E. lia.
  - apply (f_equal String.length) in E. cbn in E. rewrite append_length in E. lia.
  - injection E as -> E. f_equal. apply IH, E.
Qed.

(** X14. Two readings get the same MQTT topic only if they come from
    the same device id, and two generated readings only if they were
    generated for the same buoy number: no two buoys ever share a
    topic or a device id. *)
Theorem topic_identifies_buoy :
  (forall r1 r2 : Reading, topic r1 = topic r2 <-> buoy r1 = buoy r2) /\
  (forall (i j : nat) (t1 t2 : Z) (d1 d2 : Draws),
     topic (generate_buoy_reading i t1 d1) = topic (generate_buoy_reading j t2 d2) <->
     i = j).
Proof.
  assert (H : forall r1 r2 : Reading, topic r1 = topic r2 <-> buoy r1 = buoy r2).
  { intros r1 r2. unfold topic. split; [|intros ->; reflexivity].
    intros E. cbn in E. injection E as E. apply append_cancel_r in E. exact E. }
  split; [exact H|].
  intros i j t1 t2 d1 d2. rewrite H. cbn [buoy generate_buoy_reading]. split.
  - apply buoy_label_inj.
  - intros ->. reflexivity.
Qed.
